(** * postprocessing: materials and the effect pipeline

    A shallow embedding of the two material classes of
    [src/materials/MaskMaterial.js], [MaskMaterial] and [KawaseBlurMaterial],
    and of the pass pipeline that the specification describes around them.

    JavaScript numbers are IEEE 754 binary64 values; they are embedded as
    Rocq's primitive floats, which are the same format with the same
    rounding.  A JavaScript object used as a dictionary ([defines]) is a
    [gmap]; an object of fixed shape ([uniforms]) is a record.  Accessors and
    methods run in a small state-and-exception monad: a [TypeError] raised in
    the middle of a setter leaves the writes made before it in place, as it
    does in JavaScript.  three.js turns the assignment [needsUpdate = true]
    into a request to recompile the shader; the materials' state records
    that request as a flag. *)

From Stdlib Require Import ZArith QArith Qcanon.
From Stdlib Require Import PrimFloat FloatAxioms.
From Stdlib Require SpecFloat FloatOps.
From stdpp Require Import base option list gmap strings pretty.

(** ** JavaScript completions and mutable state *)

Module JS.

Inductive error : Type :=
| TypeError.

Inductive completion (A : Type) : Type :=
| Normal (a : A)
| Thrown (e : error).
Arguments Normal {A} a.
Arguments Thrown {A} e.

(** A method body: it runs on the receiver's state and completes normally
    with a value or abruptly with an error, in a possibly changed state. *)
Definition M (S A : Type) : Type := S -> completion A * S.

Definition ret {S A : Type} (a : A) : M S A := fun s => (Normal a, s).

Definition throw {S A : Type} (e : error) : M S A := fun s => (Thrown e, s).

Definition bind {S A B : Type} (c : M S A) (k : A -> M S B) : M S B :=
  fun s =>
    match c s with
    | (Normal a, s') => k a s'
    | (Thrown e, s') => (Thrown e, s')
    end.

Definition gets {S A : Type} (f : S -> A) : M S A := fun s => (Normal (f s), s).

Definition modify {S : Type} (f : S -> S) : M S unit := fun s => (Normal tt, f s).

(** [o.p] where [o] may be [null]: reading a property of [null] throws. *)
Definition member {S O A : Type} (o : option O) (p : O -> A) : M S A :=
  match o with
  | Some x => ret (p x)
  | None => throw TypeError
  end.

Definition returns {S A : Type} (c : M S A) (s : S) : Prop :=
  exists a s', c s = (Normal a, s').

Definition throws {S A : Type} (c : M S A) (s : S) : Prop :=
  exists e s', c s = (@Thrown A e, s').

End JS.

(** ** Binary64 numbers

    The operations of the primitive floats are specified on [spec_float],
    sign, mantissa and exponent; the constants below are the images of [1]
    and [0.5] there. *)

Module Binary64.

Import SpecFloat.

(** The number one exponent lower: half of a finite value. *)
Definition halfOf (f : spec_float) : spec_float :=
  match f with
  | S754_finite s m e => S754_finite s m (e - 1)
  | _ => f
  end.

Definition SF_one : spec_float := S754_finite false 4503599627370496 (-52).

Definition SF_half : spec_float := S754_finite false 4503599627370496 (-53).

End Binary64.

Declare Scope js_scope.
Delimit Scope js_scope with js.
Notation "x <- c ;; k" := (JS.bind c (fun x => k))
  (at level 100, c at next level, right associativity) : js_scope.
Notation "c ;; k" := (JS.bind c (fun _ => k))
  (at level 100, right associativity) : js_scope.

(** ** The parts of three.js the materials touch *)

Module Three.

(** A texture object: its identity and the [type] property that the mask
    material inspects. *)
Record Texture : Type := mkTexture {
  uuid : nat;
  type : Z
}.

Record Vector4 : Type := mkVector4 {
  x : float;
  y : float;
  z : float;
  w : float
}.

(** [new Vector4()] *)
Definition Vector4_new : Vector4 := mkVector4 0 0 0 1.

(** [v.set(x, y, z, w)] overwrites the four components. *)
Definition Vector4_set (x y z w : float) (_ : Vector4) : Vector4 :=
  mkVector4 x y z w.

(** [n.toFixed(0)] for an integral number [n]: its decimal digits.  This is
    what [toFixed] prints for magnitudes below [10^21], from where on
    JavaScript switches to exponent notation; the enumeration values that
    the materials format are small whole numbers. *)
Definition toFixed0 (n : Z) : string := pretty n.

End Three.

(** ** MaskMaterial *)

Module MaskMaterial.

Import JS Three.
Local Open Scope js_scope.

(** [this.uniforms]: three [Uniform] objects, each holding one [value]. *)
Record Uniforms : Type := mkUniforms {
  u_maskTexture : option Texture;
  u_inputBuffer : option Texture;
  u_strength : float
}.

(** The state of a material instance that the class reads or writes.  The
    shader sources and the blending constant are opaque values that no
    accessor touches; they are left out. *)
Record t : Type := mkMaterial {
  name : string;
  uniforms : Uniforms;
  defines : gmap string string;
  toneMapped : bool;
  depthWrite : bool;
  depthTest : bool;
  (* whether a recompilation of the shader has been requested *)
  needsUpdate : bool
}.

Definition with_uniforms (f : Uniforms -> Uniforms) (m : t) : t :=
  mkMaterial (name m) (f (uniforms m)) (defines m)
    (toneMapped m) (depthWrite m) (depthTest m) (needsUpdate m).

Definition with_defines (f : gmap string string -> gmap string string) (m : t) : t :=
  mkMaterial (name m) (uniforms m) (f (defines m))
    (toneMapped m) (depthWrite m) (depthTest m) (needsUpdate m).

Definition with_needsUpdate (b : bool) (m : t) : t :=
  mkMaterial (name m) (uniforms m) (defines m)
    (toneMapped m) (depthWrite m) (depthTest m) b.

Definition write_maskTexture (v : option Texture) (u : Uniforms) : Uniforms :=
  mkUniforms v (u_inputBuffer u) (u_strength u).

Definition write_inputBuffer (v : option Texture) (u : Uniforms) : Uniforms :=
  mkUniforms (u_maskTexture u) v (u_strength u).

Definition write_strength (v : float) (u : Uniforms) : Uniforms :=
  mkUniforms (u_maskTexture u) (u_inputBuffer u) v.

Section Class.

(** [UnsignedByteType] is a constant of three.js; [ColorChannel.RED] and
    [MaskFunction.DISCARD] are members of the library's enums, which are
    declared in [enums/index.js].  Their numeric values are parameters. *)
Variable UnsignedByteType : Z.
Variables RED DISCARD : Z.

(** [set inputBuffer(value)] *)
Definition set_inputBuffer (value : option Texture) : M t unit :=
  modify (with_uniforms (write_inputBuffer value)).

(** [setInputBuffer(value)] *)
Definition setInputBuffer (value : option Texture) : M t unit :=
  modify (with_uniforms (write_inputBuffer value)).

(** [set maskTexture(value)]; the value is a texture or [null], as the
    documented type and the constructor's default have it. *)
Definition set_maskTexture (value : option Texture) : M t unit :=
  modify (with_uniforms (write_maskTexture value)) ;;
  modify (with_defines (delete "MASK_PRECISION_HIGH")) ;;
  ty <- member value type ;;
  (if negb (ty =? UnsignedByteType)%Z
   then modify (with_defines <["MASK_PRECISION_HIGH" := "1"]>)
   else ret tt) ;;
  modify (with_needsUpdate true).

(** [setMaskTexture(value)] *)
Definition setMaskTexture (value : option Texture) : M t unit :=
  set_maskTexture value.

(** [set colorChannel(value)] *)
Definition set_colorChannel (value : Z) : M t unit :=
  modify (with_defines <["COLOR_CHANNEL" := toFixed0 value]>) ;;
  modify (with_needsUpdate true).

(** [setColorChannel(value)] *)
Definition setColorChannel (value : Z) : M t unit :=
  set_colorChannel value.

(** [set maskFunction(value)] *)
Definition set_maskFunction (value : Z) : M t unit :=
  modify (with_defines <["MASK_FUNCTION" := toFixed0 value]>) ;;
  modify (with_needsUpdate true).

(** [setMaskFunction(value)] *)
Definition setMaskFunction (value : Z) : M t unit :=
  set_maskFunction value.

(** [get inverted()]: [this.defines.INVERTED !== undefined] *)
Definition get_inverted : M t bool :=
  gets (fun m => bool_decide (defines m !! "INVERTED" ≠ None)).

(** [set inverted(value)] *)
Definition set_inverted (value : bool) : M t unit :=
  inv <- get_inverted ;;
  (if inv && negb value
   then modify (with_defines (delete "INVERTED"))
   else if value
        then modify (with_defines <["INVERTED" := "1"]>)
        else ret tt) ;;
  modify (with_needsUpdate true).

(** [isInverted()] *)
Definition isInverted : M t bool :=
  get_inverted.

(** [setInverted(value)] *)
Definition setInverted (value : bool) : M t unit :=
  set_inverted value.

(** [get strength()] *)
Definition get_strength : M t float :=
  gets (fun m => u_strength (uniforms m)).

(** [set strength(value)] *)
Definition set_strength (value : float) : M t unit :=
  modify (with_uniforms (write_strength value)).

(** [getStrength()] *)
Definition getStrength : M t float :=
  get_strength.

(** [setStrength(value)] *)
Definition setStrength (value : float) : M t unit :=
  set_strength value.

(** What [super({...})] leaves behind: the given name, uniforms and flags,
    an empty [defines] object, and no update requested yet. *)
Definition super (maskTexture : option Texture) : t :=
  mkMaterial "MaskMaterial" (mkUniforms maskTexture None 1) ∅ false false false false.

(** [constructor(maskTexture = null)]: the state after [super] and the two
    assignments, which go through the setters above. *)
Definition constructor (maskTexture : option Texture) : completion unit * t :=
  (set_colorChannel RED ;; set_maskFunction DISCARD) (super maskTexture).

(** [new MaskMaterial()] *)
Definition constructor_default : completion unit * t :=
  constructor None.

End Class.

End MaskMaterial.

(** ** KawaseBlurMaterial *)

Module KawaseBlurMaterial.

Import JS Three.
Local Open Scope js_scope.
Local Open Scope float_scope.

Record Uniforms : Type := mkUniforms {
  u_inputBuffer : option Texture;
  u_texelSize : Vector4;
  u_scale : float;
  u_kernel : float
}.

(** The material's state; the shader sources and the blending constant are
    left out, as for the mask material. *)
Record t : Type := mkMaterial {
  name : string;
  uniforms : Uniforms;
  defines : gmap string string;
  toneMapped : bool;
  depthWrite : bool;
  depthTest : bool;
  needsUpdate : bool;
  kernelSize : option Z
}.

Definition with_uniforms (f : Uniforms -> Uniforms) (m : t) : t :=
  mkMaterial (name m) (f (uniforms m)) (defines m)
    (toneMapped m) (depthWrite m) (depthTest m) (needsUpdate m) (kernelSize m).

Definition with_kernelSize (k : option Z) (m : t) : t :=
  mkMaterial (name m) (uniforms m) (defines m)
    (toneMapped m) (depthWrite m) (depthTest m) (needsUpdate m) k.

Definition write_inputBuffer (v : option Texture) (u : Uniforms) : Uniforms :=
  mkUniforms v (u_texelSize u) (u_scale u) (u_kernel u).

Definition write_texelSize (f : Vector4 -> Vector4) (u : Uniforms) : Uniforms :=
  mkUniforms (u_inputBuffer u) (f (u_texelSize u)) (u_scale u) (u_kernel u).

Definition write_scale (v : float) (u : Uniforms) : Uniforms :=
  mkUniforms (u_inputBuffer u) (u_texelSize u) v (u_kernel u).

Definition write_kernel (v : float) (u : Uniforms) : Uniforms :=
  mkUniforms (u_inputBuffer u) (u_texelSize u) (u_scale u) v.

(** [set inputBuffer(value)] *)
Definition set_inputBuffer (value : option Texture) : M t unit :=
  modify (with_uniforms (write_inputBuffer value)).

(** [setInputBuffer(value)] *)
Definition setInputBuffer (value : option Texture) : M t unit :=
  set_inputBuffer value.

(** [get scale()] *)
Definition get_scale : M t float :=
  gets (fun m => u_scale (uniforms m)).

(** [set scale(value)] *)
Definition set_scale (value : float) : M t unit :=
  modify (with_uniforms (write_scale value)).

(** [getScale()] *)
Definition getScale : M t float :=
  gets (fun m => u_scale (uniforms m)).

(** [setScale(value)] *)
Definition setScale (value : float) : M t unit :=
  modify (with_uniforms (write_scale value)).

(** [get kernel()] *)
Definition get_kernel : M t float :=
  gets (fun m => u_kernel (uniforms m)).

(** [set kernel(value)] *)
Definition set_kernel (value : float) : M t unit :=
  modify (with_uniforms (write_kernel value)).

(** [setKernel(value)] *)
Definition setKernel (value : float) : M t unit :=
  set_kernel value.

(** [setTexelSize(x, y)] *)
Definition setTexelSize (x y : float) : M t unit :=
  modify (with_uniforms (write_texelSize (Vector4_set x y (x * 0.5) (y * 0.5)))).

(** [setSize(width, height)] *)
Definition setSize (width height : float) : M t unit :=
  let x := 1.0 / width in
  let y := 1.0 / height in
  modify (with_uniforms (write_texelSize (Vector4_set x y (x * 0.5) (y * 0.5)))).

(** The sizes whose texel size stays in the range of normal doubles when
    it is halved: the positive numbers below [2^1021] whose reciprocal does
    not overflow. *)
Definition texelRange (size : float) : bool :=
  ((0 <? size) && (size <? 0x1p1021) && (1.0 / size <? infinity))%float.

Section Class.

(** [KernelSize.MEDIUM], declared in [enums/index.js]. *)
Variable MEDIUM : Z.

(** What [super({...})] leaves behind; [kernelSize] is not assigned yet. *)
Definition super : t :=
  mkMaterial "KawaseBlurMaterial" (mkUniforms None Vector4_new 1.0 0.0) ∅
    false false false false None.

(** [constructor(texelSize = new Vector4())]; the rewriting of the fragment
    shader source is on a field that is left out. *)
Definition constructor (texelSize : Vector4) : completion unit * t :=
  (setTexelSize (x texelSize) (y texelSize) ;;
   modify (with_kernelSize (Some MEDIUM))) super.

End Class.

(** [kernelPresets]: one array of offsets per kernel size.  The entries are
    small whole numbers, which a [Float32Array] holds exactly. *)
Definition kernelPresets : list (list float) :=
  [ [0.0; 0.0];
    [0.0; 1.0; 1.0];
    [0.0; 1.0; 1.0; 2.0];
    [0.0; 1.0; 2.0; 2.0; 3.0];
    [0.0; 1.0; 2.0; 3.0; 4.0; 4.0; 5.0];
    [0.0; 1.0; 2.0; 3.0; 4.0; 5.0; 7.0; 8.0; 9.0; 10.0] ].

(** [a[i]] for an array [a] and a whole number [i]: [undefined] when [i] is
    not an index of [a]. *)
Definition index {A : Type} (a : list A) (i : Z) : option A :=
  if (i <? 0)%Z then None else a !! Z.to_nat i.

(** [get kernelSequence()]: [kernelPresets[this.kernelSize]]; [None] is
    [undefined], also when [kernelSize] has not been assigned. *)
Definition get_kernelSequence : M t (option (list float)) :=
  gets (fun m => k ← kernelSize m; index kernelPresets k).

(** [material.kernelSize = value], an assignment to the public field. *)
Definition set_kernelSize (value : Z) : M t unit :=
  modify (with_kernelSize (Some value)).

End KawaseBlurMaterial.

(** ** Callers of the materials

    A caller uses a material through assignments to its properties and
    calls of its methods, in some order.  A use that throws is caught by the
    caller, and the material stays as the throw left it. *)

Module MaskCalls.

Import JS Three.
Local Open Scope js_scope.

(** One use of a mask material: [Assign...] is [material.p = value],
    [Read...] is [material.p], [Call...] is a method call. *)
Inductive Call : Type :=
| AssignInputBuffer (value : option Texture)
| CallSetInputBuffer (value : option Texture)
| AssignMaskTexture (value : option Texture)
| CallSetMaskTexture (value : option Texture)
| AssignColorChannel (value : Z)
| CallSetColorChannel (value : Z)
| AssignMaskFunction (value : Z)
| CallSetMaskFunction (value : Z)
| ReadInverted
| AssignInverted (value : bool)
| CallIsInverted
| CallSetInverted (value : bool)
| ReadStrength
| AssignStrength (value : float)
| CallGetStrength
| CallSetStrength (value : float).

(** A use whose result the caller drops. *)
Definition discard {S A : Type} (c : M S A) : M S unit :=
  _ <- c ;; ret tt.

Section Calls.

Variable UnsignedByteType : Z.

Definition perform (c : Call) : M MaskMaterial.t unit :=
  match c with
  | AssignInputBuffer value => MaskMaterial.set_inputBuffer value
  | CallSetInputBuffer value => MaskMaterial.setInputBuffer value
  | AssignMaskTexture value => MaskMaterial.set_maskTexture UnsignedByteType value
  | CallSetMaskTexture value => MaskMaterial.setMaskTexture UnsignedByteType value
  | AssignColorChannel value => MaskMaterial.set_colorChannel value
  | CallSetColorChannel value => MaskMaterial.setColorChannel value
  | AssignMaskFunction value => MaskMaterial.set_maskFunction value
  | CallSetMaskFunction value => MaskMaterial.setMaskFunction value
  | ReadInverted => discard MaskMaterial.get_inverted
  | AssignInverted value => MaskMaterial.set_inverted value
  | CallIsInverted => discard MaskMaterial.isInverted
  | CallSetInverted value => MaskMaterial.setInverted value
  | ReadStrength => discard MaskMaterial.get_strength
  | AssignStrength value => MaskMaterial.set_strength value
  | CallGetStrength => discard MaskMaterial.getStrength
  | CallSetStrength value => MaskMaterial.setStrength value
  end.

(** The material after the uses [cs], made in order from left to right. *)
Definition after (cs : list Call) (m : MaskMaterial.t) : MaskMaterial.t :=
  foldl (fun m c => snd (perform c m)) m cs.

End Calls.

(** What a use assigns to each property, if it assigns to it. *)
Definition inputBufferOf (c : Call) : option (option Texture) :=
  match c with
  | AssignInputBuffer v | CallSetInputBuffer v => Some v
  | _ => None
  end.

Definition maskTextureOf (c : Call) : option (option Texture) :=
  match c with
  | AssignMaskTexture v | CallSetMaskTexture v => Some v
  | _ => None
  end.

Definition colorChannelOf (c : Call) : option Z :=
  match c with
  | AssignColorChannel v | CallSetColorChannel v => Some v
  | _ => None
  end.

Definition maskFunctionOf (c : Call) : option Z :=
  match c with
  | AssignMaskFunction v | CallSetMaskFunction v => Some v
  | _ => None
  end.

Definition invertedOf (c : Call) : option bool :=
  match c with
  | AssignInverted v | CallSetInverted v => Some v
  | _ => None
  end.

Definition strengthOf (c : Call) : option float :=
  match c with
  | AssignStrength v | CallSetStrength v => Some v
  | _ => None
  end.

(** The value most recently assigned by the uses [cs] according to [sel];
    [None] when none of them assigns. *)
Definition lastAssigned {A : Type} (sel : Call -> option A) (cs : list Call) : option A :=
  last (omap sel cs).

(** The [defines] object a use leaves behind, in closed form; that the
    accessors compute it is proved as [perform_defines]. *)
Definition definesAfter (UnsignedByteType : Z) (c : Call)
    (d : gmap string string) : gmap string string :=
  match c with
  | AssignMaskTexture (Some tex) | CallSetMaskTexture (Some tex) =>
      if negb (type tex =? UnsignedByteType)%Z
      then <["MASK_PRECISION_HIGH" := "1"]> (delete "MASK_PRECISION_HIGH" d)
      else delete "MASK_PRECISION_HIGH" d
  | AssignMaskTexture None | CallSetMaskTexture None =>
      delete "MASK_PRECISION_HIGH" d
  | AssignColorChannel v | CallSetColorChannel v =>
      <["COLOR_CHANNEL" := toFixed0 v]> d
  | AssignMaskFunction v | CallSetMaskFunction v =>
      <["MASK_FUNCTION" := toFixed0 v]> d
  | AssignInverted v | CallSetInverted v =>
      if v then <["INVERTED" := "1"]> d else delete "INVERTED" d
  | _ => d
  end.

(** The four macros the class manages in [defines]. *)
Definition managed : gset string :=
  {[ "MASK_PRECISION_HIGH"; "COLOR_CHANNEL"; "MASK_FUNCTION"; "INVERTED" ]}.

(** The shape of [defines] that the class keeps up: the channel and the
    function are defined, no macro besides the four managed ones is, and
    the two flags are ["1"] when they are defined. *)
Definition wellFormedDefines (d : gmap string string) : Prop :=
  is_Some (d !! "COLOR_CHANNEL")
  /\ is_Some (d !! "MASK_FUNCTION")
  /\ dom d ⊆ managed
  /\ (forall v, d !! "INVERTED" = Some v -> v = "1")
  /\ (forall v, d !! "MASK_PRECISION_HIGH" = Some v -> v = "1").

(** Whether a value is a texture whose type is not [UnsignedByteType]. *)
Definition highPrecision (UnsignedByteType : Z) (value : option Texture) : bool :=
  match value with
  | Some tex => negb (type tex =? UnsignedByteType)%Z
  | None => false
  end.

(** [MASK_PRECISION_HIGH] agrees with the mask texture in the uniform: it
    is defined exactly when the uniform holds a texture whose type is not
    [UnsignedByteType]. *)
Definition precisionAgrees (UnsignedByteType : Z) (m : MaskMaterial.t) : Prop :=
  is_Some (MaskMaterial.defines m !! "MASK_PRECISION_HIGH") <->
  highPrecision UnsignedByteType
    (MaskMaterial.u_maskTexture (MaskMaterial.uniforms m)) = true.

(** What the [inverted] getter reads on a material. *)
Definition invertedIn (m : MaskMaterial.t) : bool :=
  bool_decide (MaskMaterial.defines m !! "INVERTED" ≠ None).

End MaskCalls.

Module BlurCalls.

Import JS Three.
Local Open Scope js_scope.

(** One use of a blur material. *)
Inductive Call : Type :=
| AssignInputBuffer (value : option Texture)
| CallSetInputBuffer (value : option Texture)
| ReadKernelSequence
| AssignKernelSize (value : Z)
| ReadScale
| AssignScale (value : float)
| CallGetScale
| CallSetScale (value : float)
| ReadKernel
| AssignKernel (value : float)
| CallSetKernel (value : float)
| CallSetTexelSize (x y : float)
| CallSetSize (width height : float).

Definition perform (c : Call) : M KawaseBlurMaterial.t unit :=
  match c with
  | AssignInputBuffer value => KawaseBlurMaterial.set_inputBuffer value
  | CallSetInputBuffer value => KawaseBlurMaterial.setInputBuffer value
  | ReadKernelSequence => MaskCalls.discard KawaseBlurMaterial.get_kernelSequence
  | AssignKernelSize value => KawaseBlurMaterial.set_kernelSize value
  | ReadScale => MaskCalls.discard KawaseBlurMaterial.get_scale
  | AssignScale value => KawaseBlurMaterial.set_scale value
  | CallGetScale => MaskCalls.discard KawaseBlurMaterial.getScale
  | CallSetScale value => KawaseBlurMaterial.setScale value
  | ReadKernel => MaskCalls.discard KawaseBlurMaterial.get_kernel
  | AssignKernel value => KawaseBlurMaterial.set_kernel value
  | CallSetKernel value => KawaseBlurMaterial.setKernel value
  | CallSetTexelSize x y => KawaseBlurMaterial.setTexelSize x y
  | CallSetSize width height => KawaseBlurMaterial.setSize width height
  end.

(** The material after the uses [cs], made in order from left to right. *)
Definition after (cs : list Call) (m : KawaseBlurMaterial.t) : KawaseBlurMaterial.t :=
  foldl (fun m c => snd (perform c m)) m cs.

(** The texel size a use stores, if it stores one. *)
Definition texelSizeOf (c : Call) : option Vector4 :=
  match c with
  | CallSetTexelSize x y => Some (mkVector4 x y (x * 0.5) (y * 0.5))
  | CallSetSize width height =>
      Some (mkVector4 (1 / width) (1 / height) (1 / width * 0.5) (1 / height * 0.5))
  | _ => None
  end.

Definition inputBufferOf (c : Call) : option (option Texture) :=
  match c with
  | AssignInputBuffer v | CallSetInputBuffer v => Some v
  | _ => None
  end.

Definition scaleOf (c : Call) : option float :=
  match c with
  | AssignScale v | CallSetScale v => Some v
  | _ => None
  end.

Definition kernelOf (c : Call) : option float :=
  match c with
  | AssignKernel v | CallSetKernel v => Some v
  | _ => None
  end.

Definition kernelSizeOf (c : Call) : option Z :=
  match c with
  | AssignKernelSize v => Some v
  | _ => None
  end.

Definition lastAssigned {A : Type} (sel : Call -> option A) (cs : list Call) : option A :=
  last (omap sel cs).

(** The last two components of a texel size are the halves of the first
    two. *)
Definition halved (v : Vector4) : Prop :=
  z v = (x v * 0.5)%float /\ w v = (y v * 0.5)%float.

(** A list of offsets that never decreases from one entry to the next. *)
Fixpoint ascending (l : list float) : bool :=
  match l with
  | a :: (b :: _) as rest => PrimFloat.leb a b && ascending rest
  | _ => true
  end.

End BlurCalls.

(** * The pass pipeline

    The composer, the passes and the effect merging are not among the source
    files; only a test that creates and disposes a [Pass] and a demo that
    calls [addPass], [setSize] and [render] are.  This module models them
    from the specification (sections 3, 4, 7 and 8). *)

Module Pipeline.

Local Open Scope Qc_scope.

(** Modelled from the spec: the error taxonomy of section 7. *)
Inductive Error : Type :=
| ConfigurationError
| CompilationError
| ResourceExhaustion.

(** Modelled from the spec: an operation that reports an error to its
    caller instead of a result. *)
Inductive Result (A : Type) : Type :=
| Ok (a : A)
| Err (e : Error).
Arguments Ok {A} a.
Arguments Err {A} e.

(** Modelled from the spec: an error of a step is the error of the whole
    operation (section 7: no error is swallowed). *)
Definition andThen {A B : Type} (r : Result A) (k : A -> Result B) : Result B :=
  match r with
  | Ok a => k a
  | Err e => Err e
  end.

(** Modelled from the spec: a colour sample, one rational per channel. *)
Definition Color : Type := Qc * Qc * Qc.

(** Modelled from the spec: the valid range of a channel, zero to one. *)
Definition clamp01 (q : Qc) : Qc :=
  if decide (q < 0) then 0 else if decide (1 < q) then 1 else q.

(** Modelled from the spec: a colour stored in a render target is clamped to
    the valid range, zero to one per channel. *)
Definition clamp (c : Color) : Color :=
  let '(r, g, b) := c in (clamp01 r, clamp01 g, clamp01 b).

(** Modelled from the spec: the attachment requirements of section 3 beyond
    the primary colour buffer. *)
Inductive Attachment : Type :=
| Depth
| Velocity
| CustomTexture (n : nat).

#[global] Instance Attachment_eq_dec : EqDecision Attachment.
Proof. solve_decision. Defined.

(** Modelled from the spec: the two ping-pong buffers of the composer. *)
Inductive Side : Type :=
| Ping
| Pong.

(** Modelled from the spec: the alternate buffer. *)
Definition other (s : Side) : Side :=
  match s with
  | Ping => Pong
  | Pong => Ping
  end.

(** Modelled from the spec: what a pass can write, one of the two buffers
    or the display (section 4.4). *)
Inductive Target : Type :=
| Buffer (s : Side)
| Display.

(** Modelled from the spec: one invocation of a pass during a frame, with
    the buffer it read and the target it wrote. *)
Record Invocation : Type := mkInvocation {
  invoked : string;
  swapping : bool;
  boundDepth : bool;
  input : Target;
  output : Target
}.

(** Modelled from the spec: the side that is the current input once an
    invocation is over; the roles flip after a pass that needs a swap. *)
Definition sideAfter (cur : Side) (inv : Invocation) : Side :=
  if swapping inv then other cur else cur.

(** A trace follows the designation that starts at [cur]: every invocation
    reads the one buffer that is the current input when it runs. *)
Fixpoint follows (cur : Side) (tr : list Invocation) : Prop :=
  match tr with
  | [] => True
  | inv :: rest => input inv = Buffer cur /\ follows (sideAfter cur inv) rest
  end.

Definition finalSide (cur : Side) (tr : list Invocation) : Side :=
  foldl sideAfter cur tr.

(** An invocation of a pass without in-place support does not write the
    buffer it reads. *)
Definition aliasFree (inv : Invocation) : Prop :=
  swapping inv = true -> output inv <> input inv.

Set Implicit Arguments.

Section Model.

(** The per-fragment inputs of a transform besides the colour: the UV
    coordinate and the optional depth and velocity samples. *)
Variable Frag : Type.

(** Modelled from the spec: the contents of a buffer, a colour per
    fragment. *)
Definition Image : Type := Frag -> Color.

(** Modelled from the spec: a blend descriptor, function and opacity
    (section 4.2 c).  The function combines the accumulated colour with the
    effect's contribution. *)
Record BlendMode : Type := mkBlendMode {
  blendFunction : Color -> Color -> Qc -> Color;
  opacity : Qc
}.

(** Modelled from the spec: an effect (sections 3 and 4.2): its declared
    requirements, its colour transform, its blend descriptor, whether it
    must run alone, and the GPU-side resources it has allocated. *)
Record Effect : Type := mkEffect {
  effectName : string;
  requirements : list Attachment;
  mainImage : Color -> Frag -> Color;
  blendMode : BlendMode;
  standalone : bool;
  resources : list nat
}.

(** Modelled from the spec: an effect's blend descriptor applied to its
    contribution over the accumulated colour. *)
Definition applyBlend (e : Effect) (accumulated contribution : Color) : Color :=
  blendFunction (blendMode e) accumulated contribution (opacity (blendMode e)).

(** Modelled from the spec: the synthesized shader (section 4.3, step 2) is
    straight-line code over two registers; each effect contributes a call of
    its transform on the running colour and the application of its blend
    descriptor to that contribution. *)
Inductive Instr : Type :=
| Transform (i : nat)
| Blend (i : nat).

(** Modelled from the spec: the assembled source: the effects' declarations,
    the additional inputs requested once per pass, and the main function. *)
Record Program : Type := mkProgram {
  declarations : list Effect;
  inputs : list Attachment;
  main : list Instr
}.

(** Modelled from the spec: the code of the effect declared at index [i]. *)
Definition stageCode (i : nat) : list Instr := [Transform i; Blend i].

(** Modelled from the spec: code assembly and attachment wiring (section
    4.3, steps 2 and 3): the declarations in list order, the union of the
    requirements, and one stage per effect in list order. *)
Definition assemble (effects : list Effect) : Program :=
  mkProgram effects
    (remove_dups (concat (map requirements effects)))
    (flat_map stageCode (seq 0 (length effects))).

(** Modelled from the spec: the running colour and the contribution of the
    effect being applied. *)
Record Regs : Type := mkRegs {
  color : Color;
  contribution : Color
}.

(** Modelled from the spec: one instruction of the main function. *)
Definition step (decls : list Effect) (frag : Frag) (r : Regs) (ins : Instr) : option Regs :=
  match ins with
  | Transform i =>
      e ← decls !! i;
      Some (mkRegs (color r) (mainImage e (color r) frag))
  | Blend i =>
      e ← decls !! i;
      Some (mkRegs (applyBlend e (color r) (contribution r)) (contribution r))
  end.

(** Modelled from the spec: the main function, instruction by
    instruction. *)
Fixpoint exec (decls : list Effect) (frag : Frag) (code : list Instr) (r : Regs) : option Regs :=
  match code with
  | [] => Some r
  | ins :: rest => r' ← step decls frag r ins; exec decls frag rest r'
  end.

(** Modelled from the spec: a program run on one fragment; [None] when an
    instruction names an effect that is not declared. *)
Definition runProgram (p : Program) (frag : Frag) (c : Color) : option Color :=
  color <$> exec (declarations p) frag (main p) (mkRegs c c).

(** The declaration an instruction refers to. *)
Definition instrIndex (ins : Instr) : nat :=
  match ins with
  | Transform i => i
  | Blend i => i
  end.

(** Modelled from the spec: source that compiles: every instruction refers
    to a declared effect. *)
Definition wellFormed (p : Program) : bool :=
  forallb (fun ins => instrIndex ins <? length (declarations p))%nat (main p).

(** Modelled from the spec: a compiled program, from a fragment and its
    input colour to its output colour. *)
Definition Shader : Type := Frag -> Color -> Color.

(** Modelled from the spec: compilation (section 4.3, step 4) is a
    deterministic function of the assembled source; source that does not
    compile is a [CompilationError]. *)
Definition compile (p : Program) : Result Shader :=
  if wellFormed p
  then Ok (fun frag c => default c (runProgram p frag c))
  else Err CompilationError.

(** Modelled from the spec: the compatibility check (section 4.3, step 1):
    an effect that must run alone cannot be merged with others. *)
Definition compatible (effects : list Effect) : bool :=
  (length effects <=? 1)%nat || forallb (fun e => negb (standalone e)) effects.

(** Modelled from the spec: the merge of an ordered effect list into one
    shader; an empty list and an incompatible list are configuration
    errors. *)
Definition merge (effects : list Effect) : Result Shader :=
  match effects with
  | [] => Err ConfigurationError
  | _ :: _ =>
      if compatible effects
      then compile (assemble effects)
      else Err ConfigurationError
  end.

(** Modelled from the spec: one effect applied on its own: its transform,
    then its blend descriptor applied to that contribution. *)
Definition stage (e : Effect) (frag : Frag) (c : Color) : Color :=
  applyBlend e c (mainImage e c frag).

(** Modelled from the spec: the mathematical composition of section 8, the
    last effect of the list outermost and the first innermost. *)
Definition composition (effects : list Effect) (frag : Frag) (c : Color) : Color :=
  foldr (fun e acc => stage e frag acc) c (rev effects).

(** Modelled from the spec: a pass (section 3) is either an effect pass,
    which owns an ordered effect list, or any other render operation from an
    input image to an output image. *)
Inductive PassKind : Type :=
| EffectPassKind (effects : list Effect)
| OtherPass (operation : Image -> Image).

(** Modelled from the spec: the fields of a pass (section 3). *)
Record Pass : Type := mkPass {
  passName : string;
  enabled : bool;
  needsDepthBuffer : bool;
  needsSwap : bool;
  kind : PassKind
}.

(** Whether an effect declares the depth requirement. *)
Definition needsDepth (e : Effect) : bool :=
  bool_decide (Depth ∈ requirements e).

(** Modelled from the spec: an effect pass reads its input while it writes
    its output, so it needs the buffers swapped; it needs the depth buffer
    when one of its effects does. *)
Definition EffectPass (name : string) (effects : list Effect) : Pass :=
  mkPass name true (existsb needsDepth effects) true (EffectPassKind effects).

(** Modelled from the spec: one full-screen draw: the shader on every
    fragment, the result clamped as it is stored. *)
Definition draw (s : Shader) (img : Image) : Image :=
  fun frag => clamp (s frag (img frag)).

(** Modelled from the spec: executing a pass (section 4.3, step 5).  The
    merge result of an effect pass is built when the pass executes. *)
Definition runPass (p : Pass) (img : Image) : Result Image :=
  match kind p with
  | EffectPassKind effects => andThen (merge effects) (fun s => Ok (draw s img))
  | OtherPass operation => Ok (operation img)
  end.

(** Modelled from the spec: the state of one frame's execution: the
    contents of the two buffers and of the display, the side that is the
    current input, and the invocations so far. *)
Record Frame : Type := mkFrame {
  pingTexels : Image;
  pongTexels : Image;
  displayed : Image;
  current : Side;
  trace : list Invocation
}.

(** Modelled from the spec: the contents of a buffer. *)
Definition read (fr : Frame) (s : Side) : Image :=
  match s with
  | Ping => pingTexels fr
  | Pong => pongTexels fr
  end.

(** Modelled from the spec: the output of a pass stored in its target. *)
Definition write (tgt : Target) (img : Image) (fr : Frame) : Frame :=
  match tgt with
  | Buffer Ping => mkFrame img (pongTexels fr) (displayed fr) (current fr) (trace fr)
  | Buffer Pong => mkFrame (pingTexels fr) img (displayed fr) (current fr) (trace fr)
  | Display => mkFrame (pingTexels fr) (pongTexels fr) img (current fr) (trace fr)
  end.

(** Modelled from the spec: the output target of a pass (section 4.4): the
    display for the last enabled pass, otherwise the alternate buffer when
    the pass needs a swap and the input buffer itself when it does not. *)
Definition outputOf (p : Pass) (isLast : bool) (cur : Side) : Target :=
  if isLast then Display
  else if needsSwap p then Buffer (other cur) else Buffer cur.

(** Modelled from the spec: the frame after one invocation: the output is
    stored, the invocation recorded, and the roles flip if the pass needs a
    swap. *)
Definition advance (p : Pass) (tgt : Target) (img : Image) (fr : Frame) : Frame :=
  let fr' := write tgt img fr in
  mkFrame (pingTexels fr') (pongTexels fr') (displayed fr')
    (if needsSwap p then other (current fr) else current fr)
    (trace fr ++ [mkInvocation (passName p) (needsSwap p) (needsDepthBuffer p)
                    (Buffer (current fr)) tgt]).

(** Modelled from the spec: the per-frame schedule of section 4.4.  Disabled
    passes are skipped; after a pass that needs a swap the roles of the two
    buffers flip; an error of a pass ends the frame. *)
Fixpoint runPasses (ps : list Pass) (fr : Frame) : Result Frame :=
  match ps with
  | [] => Ok fr
  | p :: rest =>
      if enabled p
      then
        let tgt := outputOf p (negb (existsb enabled rest)) (current fr) in
        andThen (runPass p (read fr (current fr)))
          (fun img => runPasses rest (advance p tgt img fr))
      else runPasses rest fr
  end.

(** Modelled from the spec: a buffer of the render target pool. *)
Record RenderTarget : Type := mkRenderTarget {
  handle : nat;
  texels : Image
}.

(** Modelled from the spec: the buffers a composer owns: the ping-pong pair
    and the shared depth buffer. *)
Record Targets : Type := mkTargets {
  ping : RenderTarget;
  pong : RenderTarget;
  depth : RenderTarget
}.

(** Modelled from the spec: the composer (section 3): the ordered pass
    list, the owned buffers (none once they are released), the side that is
    the current input, the display, and the buffers handed back to the
    pool. *)
Record EffectComposer : Type := mkEffectComposer {
  passes : list Pass;
  targets : option Targets;
  inputSide : Side;
  screen : Image;
  pool : list RenderTarget
}.

(** Modelled from the spec: [addPass(pass)] appends to the pass list. *)
Definition addPass (p : Pass) (c : EffectComposer) : EffectComposer :=
  mkEffectComposer (passes c ++ [p]) (targets c) (inputSide c) (screen c) (pool c).

(** Modelled from the spec: the pass list replaced between frames. *)
Definition setPasses (ps : list Pass) (c : EffectComposer) : EffectComposer :=
  mkEffectComposer ps (targets c) (inputSide c) (screen c) (pool c).

(** Modelled from the spec: [render()] executes exactly one frame.  On an
    error the composer is left as it was (section 7); a composer whose
    buffers are released has nothing to render to, which is reported as a
    configuration error. *)
Definition render (c : EffectComposer) : Result (list Invocation) * EffectComposer :=
  match targets c with
  | None => (Err ConfigurationError, c)
  | Some t =>
      match runPasses (passes c)
              (mkFrame (texels (ping t)) (texels (pong t)) (screen c) (inputSide c) []) with
      | Ok fr =>
          (Ok (trace fr),
           mkEffectComposer (passes c)
             (Some (mkTargets (mkRenderTarget (handle (ping t)) (pingTexels fr))
                      (mkRenderTarget (handle (pong t)) (pongTexels fr))
                      (depth t)))
             (current fr) (displayed fr) (pool c))
      | Err e => (Err e, c)
      end
  end.

(** Modelled from the spec: an effect once its GPU-side resources are
    released. *)
Definition releaseEffect (e : Effect) : Effect :=
  mkEffect (effectName e) (requirements e) (mainImage e) (blendMode e) (standalone e) [].

(** Modelled from the spec: the release hook of a pass (section 4.4,
    disposal): it releases the GPU-side resources its effects allocated and
    reports which ones. *)
Definition Pass_dispose (p : Pass) : Result (list nat) * Pass :=
  match kind p with
  | EffectPassKind effects =>
      (Ok (concat (map resources effects)),
       mkPass (passName p) (enabled p) (needsDepthBuffer p) (needsSwap p)
         (EffectPassKind (map releaseEffect effects)))
  | OtherPass _ => (Ok [], p)
  end.

(** Modelled from the spec: [dispose()] on the composer hands the owned
    buffers back to the pool and calls the release hook of every pass. *)
Definition dispose (c : EffectComposer) : Result unit * EffectComposer :=
  (Ok tt,
   mkEffectComposer (map (fun p => snd (Pass_dispose p)) (passes c)) None
     (inputSide c) (screen c)
     (match targets c with
      | Some t => [ping t; pong t; depth t] ++ pool c
      | None => pool c
      end)).

(** A configuration [render()] accepts: the buffers are there and every
    enabled effect pass has a non-empty, compatible effect list. *)
Definition validPass (p : Pass) : bool :=
  match kind p with
  | EffectPassKind effects =>
      negb (enabled p) || (negb (bool_decide (effects = [])) && compatible effects)
  | OtherPass _ => true
  end.

End Model.

Unset Implicit Arguments.

Arguments validPass {Frag} p.
Arguments resources {Frag} e.
Arguments releaseEffect {Frag} e.

(** ** The effects of scenario B *)

Definition scaleColor (k : Qc) (c : Color) : Color :=
  let '(r, g, b) := c in (k * r, k * g, k * b).

Definition offsetColor (d : Qc) (c : Color) : Color :=
  let '(r, g, b) := c in (r + d, g + d, b + d).

(** The normal blend: the contribution mixed over the accumulated colour
    by the opacity. *)
Definition blendNormal (accumulated contribution : Color) (o : Qc) : Color :=
  let '(r, g, b) := accumulated in
  let '(r', g', b') := contribution in
  (r * (1 - o) + r' * o, g * (1 - o) + g' * o, b * (1 - o) + b' * o).

(** An effect that multiplies the colour by one half. *)
Definition halve {Frag : Type} : Effect Frag :=
  mkEffect "halve" [] (fun c _ => scaleColor (Q2Qc (1 # 2)) c)
    (mkBlendMode blendNormal 1) false [].

(** An effect that adds one tenth to every channel. *)
Definition lift {Frag : Type} : Effect Frag :=
  mkEffect "lift" [] (fun c _ => offsetColor (Q2Qc (1 # 10)) c)
    (mkBlendMode blendNormal 1) false [].

Definition white : Color := (1, 1, 1).

Definition gray (q : Qc) : Color := (q, q, q).

(** ** Sample configurations *)

Definition blank : Image unit := fun _ => (0, 0, 0).

Definition sampleTargets : Targets unit :=
  mkTargets (mkRenderTarget 0%nat blank) (mkRenderTarget 1%nat blank)
    (mkRenderTarget 2%nat blank).

(** A pass that renders a white scene into its buffer, in place. *)
Definition whiteScene : Pass unit :=
  mkPass "scene" true false false (OtherPass (fun _ _ => white)).

(** A composer whose effect pass has no effects. *)
Definition brokenComposer : EffectComposer unit :=
  mkEffectComposer [whiteScene; EffectPass "empty" []]
    (Some sampleTargets) Ping blank [].

(** A scene pass followed by three effect passes. *)
Definition chain : list (Pass unit) :=
  [whiteScene; EffectPass "first" [halve]; EffectPass "second" [lift];
   EffectPass "third" [halve; lift]].

Definition chainComposer : EffectComposer unit :=
  mkEffectComposer chain (Some sampleTargets) Ping blank [].

(** The invocations of one frame of [chainComposer]. *)
Definition chainTrace : list Invocation :=
  [mkInvocation "scene" false false (Buffer Ping) (Buffer Ping);
   mkInvocation "first" true false (Buffer Ping) (Buffer Pong);
   mkInvocation "second" true false (Buffer Pong) (Buffer Ping);
   mkInvocation "third" true false (Buffer Ping) Display].

End Pipeline.

(** * Facts about the materials *)

Module JSFacts.

Import JS.

Lemma returns_not_throws {S A : Type} (c : M S A) (s : S) :
  returns c s -> ~ throws c s.
Proof.
  intros (a & s1 & Hr) (e & s2 & Ht). rewrite Hr in Ht. discriminate Ht.
Qed.

End JSFacts.

Module Binary64Facts.

Import SpecFloat FloatOps.
Import Binary64.

Local Open Scope Z_scope.

(** A positive number of [d] binary digits lies between [2^(d-1)] and [2^d]. *)
Lemma digits2_pos_bounds (m : positive) :
  2 ^ (Zpos (digits2_pos m) - 1) <= Zpos m < 2 ^ Zpos (digits2_pos m).
Proof.
  induction m as [m IH|m IH|]; cbn [digits2_pos].
  - rewrite Pos2Z.inj_succ. replace (Z.succ (Zpos (digits2_pos m)) - 1) with (Zpos (digits2_pos m)) by lia.
    rewrite Z.pow_succ_r by lia.
    replace (2 ^ Zpos (digits2_pos m)) with (2 * 2 ^ (Zpos (digits2_pos m) - 1)) in * by
      (rewrite <- Z.pow_succ_r by lia; f_equal; lia).
    lia.
  - rewrite Pos2Z.inj_succ. replace (Z.succ (Zpos (digits2_pos m)) - 1) with (Zpos (digits2_pos m)) by lia.
    rewrite Z.pow_succ_r by lia.
    replace (2 ^ Zpos (digits2_pos m)) with (2 * 2 ^ (Zpos (digits2_pos m) - 1)) in * by
      (rewrite <- Z.pow_succ_r by lia; f_equal; lia).
    lia.
  - simpl. lia.
Qed.

(** Shifting right is indifferent to the exponent: one exponent lower, the
    same mantissa comes out, when the same number of digits is shifted out
    or none is in both cases. *)
Lemma shr_pred (r : shr_record) (e n n' : Z) :
  n' = n \/ (n <= -1 /\ n' <= 0) ->
  shr r (e - 1) n' = (fst (shr r e n), snd (shr r e n) - 1).
Proof.
  intros [->|[Hn Hn']]; unfold shr.
  - destruct n; simpl; f_equal; lia.
  - destruct n, n'; simpl; try lia; reflexivity.
Qed.

(** Above the subnormal range, the canonical exponent follows the magnitude
    one step down. *)
Lemma fexp_pred (x e : Z) :
  SpecFloat.emin prec emax + 1 <= e ->
  fexp prec emax (x - 1) - (e - 1) = fexp prec emax x - e
  \/ (fexp prec emax x - e <= -1 /\ fexp prec emax (x - 1) - (e - 1) <= 0).
Proof. unfold fexp, SpecFloat.emin, prec, emax. lia. Qed.

Lemma shr_snd_ge (r : shr_record) (e n : Z) : e <= snd (shr r e n).
Proof. unfold shr. destruct n; simpl; lia. Qed.

Lemma shr_fexp_pred (q e : Z) (l : location) :
  SpecFloat.emin prec emax + 1 <= e ->
  shr_fexp prec emax q (e - 1) l =
  (fst (shr_fexp prec emax q e l), snd (shr_fexp prec emax q e l) - 1).
Proof.
  intros He. unfold shr_fexp. apply shr_pred.
  replace (Zdigits2 q + (e - 1)) with (Zdigits2 q + e - 1) by lia.
  apply fexp_pred, He.
Qed.

Lemma shr_fexp_snd_ge (q e : Z) (l : location) : e <= snd (shr_fexp prec emax q e l).
Proof. unfold shr_fexp. apply shr_snd_ge. Qed.

(** Rounding commutes with halving: a quotient one exponent lower rounds to
    half the number, unless the number overflows. *)
Lemma binary_round_aux_half (s : bool) (q e : Z) (l : location) :
  SpecFloat.emin prec emax + 1 <= e ->
  binary_round_aux prec emax s q e l <> S754_infinity s ->
  binary_round_aux prec emax s q (e - 1) l = halfOf (binary_round_aux prec emax s q e l).
Proof.
  intros He. unfold binary_round_aux.
  rewrite (shr_fexp_pred q e l He).
  pose proof (shr_fexp_snd_ge q e l) as Hge1.
  destruct (shr_fexp prec emax q e l) as [mrs1 e1]. cbn [fst snd] in *.
  rewrite (shr_fexp_pred _ e1 loc_Exact) by lia.
  destruct (shr_fexp prec emax _ e1 loc_Exact) as [mrs2 e2]. cbn [fst snd].
  destruct (shr_m mrs2) as [|m|m]; try reflexivity.
  destruct (Z.leb_spec e2 (emax - prec)) as [Hle|Hgt].
  - intros _. destruct (Z.leb_spec (e2 - 1) (emax - prec)); [reflexivity|lia].
  - intros Hinf. contradiction.
Qed.

(** Rounding never lowers the exponent. *)
Lemma binary_round_aux_exp_ge (s : bool) (q e : Z) (l : location) (s' : bool) (m : positive) (e' : Z) :
  binary_round_aux prec emax s q e l = S754_finite s' m e' -> e <= e'.
Proof.
  unfold binary_round_aux.
  pose proof (shr_fexp_snd_ge q e l) as Hge1.
  destruct (shr_fexp prec emax q e l) as [mrs1 e1]. cbn [fst snd] in *.
  match goal with |- context [shr_fexp prec emax ?a e1 loc_Exact] =>
    pose proof (shr_fexp_snd_ge a e1 loc_Exact) as Hge2;
    destruct (shr_fexp prec emax a e1 loc_Exact) as [mrs2 e2] end.
  cbn [fst snd] in *.
  destruct (shr_m mrs2); try discriminate.
  destruct (e2 <=? emax - prec); try discriminate.
  intros H. inversion H; subst. lia.
Qed.

Lemma shr_1_exact_even (p : positive) :
  shr_1 (Build_shr_record (Zpos p~0) false false) = Build_shr_record (Zpos p) false false.
Proof. reflexivity. Qed.

(** Multiplying a normal number by [0.5] is exact: it lowers the exponent. *)
Lemma SFmul_half (s : bool) (m : positive) (e : Z) :
  SpecFloat.valid_binary prec emax (S754_finite s m e) = true ->
  SpecFloat.emin prec emax + 1 <= e ->
  SFmul prec emax (S754_finite s m e) SF_half = S754_finite s m (e - 1).
Proof.
  intros Hv He. cbn [SpecFloat.valid_binary] in Hv.
  unfold bounded, canonical_mantissa in Hv.
  apply andb_true_iff in Hv as [Hc Hb].
  apply Z.eqb_eq in Hc. apply Z.leb_le in Hb.
  assert (Hd : Zpos (digits2_pos m) = 53).
  { revert Hc He. unfold fexp, SpecFloat.emin, prec, emax. lia. }
  unfold SFmul, SF_half. rewrite xorb_false_r.
  rewrite Pos.mul_comm. lazy beta iota delta [Pos.mul].
  unfold binary_round_aux, shr_fexp.
  cbn [Zdigits2 digits2_pos].
  rewrite !Pos2Z.inj_succ, Hd.
  replace (fexp prec emax _ - (e + -53)) with 52.
  2:{ unfold fexp, SpecFloat.emin, prec, emax in *. lia. }
  cbn [shr shr_record_of_loc iter_pos]. rewrite !shr_1_exact_even.
  cbn [shr_m loc_of_shr_record round_nearest_even Zdigits2].
  rewrite Hd.
  replace (fexp prec emax _ - (e + -53 + 52)) with 0.
  2:{ unfold fexp, SpecFloat.emin, prec, emax in *. lia. }
  cbn [shr shr_m].
  replace (e + -53 + 52) with (e - 1) by lia.
  destruct (Z.leb_spec (e - 1) (emax - prec)); [reflexivity|lia].
Qed.

(** Dividing [0.5] and dividing [1] by the same number below [2^1021] give
    the same quotient digits, one exponent apart, above the subnormal range. *)
Lemma SFdiv_core_half (m : positive) (e : Z) :
  Zpos (digits2_pos m) + e <= 1021 ->
  exists q e' l,
    SFdiv_core_binary prec emax 4503599627370496 (-52) (Zpos m) e = (q, e', l)
    /\ SFdiv_core_binary prec emax 4503599627370496 (-53) (Zpos m) e = (q, e' - 1, l)
    /\ SpecFloat.emin prec emax + 1 <= e'.
Proof.
  intros Hm. unfold SFdiv_core_binary.
  change (Zdigits2 4503599627370496) with 53. cbn [Zdigits2].
  pose proof (Pos2Z.is_pos (digits2_pos m)) as Hpos.
  replace (Z.min (fexp prec emax (53 + -52 - (Zpos (digits2_pos m) + e))) (-52 - e))
    with (-52 - Zpos (digits2_pos m) - e)
    by (unfold fexp, SpecFloat.emin, prec, emax; lia).
  replace (Z.min (fexp prec emax (53 + -53 - (Zpos (digits2_pos m) + e))) (-53 - e))
    with (-52 - Zpos (digits2_pos m) - e - 1)
    by (unfold fexp, SpecFloat.emin, prec, emax; lia).
  replace (-52 - e - (-52 - Zpos (digits2_pos m) - e)) with (Zpos (digits2_pos m)) by lia.
  replace (-53 - e - (-52 - Zpos (digits2_pos m) - e - 1)) with (Zpos (digits2_pos m)) by lia.
  destruct (Z.div_eucl _ _) as [q r].
  eexists _, _, _. split; [reflexivity|]. split; [reflexivity|].
  unfold SpecFloat.emin, prec, emax. lia.
Qed.

Local Open Scope float_scope.

Lemma digits2_pos_53 (m : positive) :
  Zpos (digits2_pos m) = 53%Z -> (4503599627370496 <= Zpos m)%Z.
Proof.
  intros Hd. pose proof (proj1 (digits2_pos_bounds m)) as Hb.
  replace (Zpos (digits2_pos m) - 1)%Z with 52%Z in Hb by lia.
  change (2 ^ 52)%Z with 4503599627370496%Z in Hb. exact Hb.
Qed.

Lemma below_two_52 (m : positive) :
  Pos.compare_cont Eq m 4503599627370496 = Lt ->
  (4503599627370496 <= Zpos m)%Z -> False.
Proof.
  intros Hcmp Hb.
  rewrite Pos.compare_cont_spec in Hcmp.
  destruct (Pos.compare_spec m 4503599627370496) as [H|H|H];
    cbn [Pos.switch_Eq] in Hcmp; try discriminate Hcmp.
  apply Pos2Z.pos_lt_pos in H.
  exact (proj1 (Z.lt_nge _ _) H Hb).
Qed.

(** Half the rounded reciprocal of a positive double below [2^1021] is the
    rounded quotient [0.5 / w], when the reciprocal does not overflow. *)
Lemma halved_reciprocal (w : float) :
  (0 <? w) = true -> (w <? 0x1p1021) = true -> (1 / w <? infinity) = true ->
  1 / w * 0.5 = 0.5 / w.
Proof.
  intros Hpos Hlt Hfin.
  apply Prim2SF_inj.
  pose proof (Prim2SF_valid w) as Hvw.
  pose proof (Prim2SF_valid (1 / w)) as Hvx.
  rewrite ltb_spec in Hpos, Hlt, Hfin.
  rewrite mul_spec, !div_spec. rewrite div_spec in Hfin, Hvx.
  change (Prim2SF 1) with SF_one in *.
  change (Prim2SF 0.5) with SF_half in *.
  change (Prim2SF 0) with (S754_zero false) in *.
  change (Prim2SF infinity) with (S754_infinity false) in *.
  change (Prim2SF 0x1p1021) with (S754_finite false 4503599627370496 969) in *.
  destruct (Prim2SF w) as [sw|sw| |sw m e]; try discriminate.
  { destruct sw; discriminate. }
  destruct sw; [discriminate|].
  cbn [SpecFloat.valid_binary] in Hvw. unfold bounded, canonical_mantissa in Hvw.
  apply andb_true_iff in Hvw as [Hc Hb]. apply Z.eqb_eq in Hc.
  assert (Hsum : (Zpos (digits2_pos m) + e <= 1021)%Z).
  { unfold SFltb, SFcompare in Hlt.
    destruct (Z.compare_spec e 969) as [He|He|He]; [ | |discriminate Hlt].
    - subst e. exfalso.
      assert (Hd : Zpos (digits2_pos m) = 53%Z)
        by (revert Hc; unfold fexp, SpecFloat.emin, prec, emax; lia).
      pose proof (digits2_pos_53 m Hd) as Hbm.
      destruct (Pos.compare_cont Eq m 4503599627370496) eqn:Hcmp;
        [discriminate Hlt| |discriminate Hlt].
      exact (below_two_52 m Hcmp Hbm).
    - revert Hc. unfold fexp, SpecFloat.emin, prec, emax. lia. }
  destruct (SFdiv_core_half m e Hsum) as (q & e' & l & Hone & Hhalf & He').
  unfold SF64div, SFdiv, SF_one, SF_half in *. cbn [xorb] in *.
  rewrite Hone in Hfin, Hvx |- *. rewrite Hhalf.
  rewrite binary_round_aux_half; [|exact He'|].
  2:{ intros Hinf. rewrite Hinf in Hfin. discriminate Hfin. }
  destruct (binary_round_aux prec emax false q e' l) as [sx|sx| |sx mx ex] eqn:Hr.
  - cbn. rewrite xorb_false_r. reflexivity.
  - cbn. rewrite xorb_false_r. reflexivity.
  - reflexivity.
  - apply SFmul_half; [exact Hvx|].
    pose proof (binary_round_aux_exp_ge _ _ _ _ _ _ _ Hr). lia.
Qed.

End Binary64Facts.

Module MaskFacts.

Import JS Three.
Import MaskMaterial.

Section Facts.

Variable UnsignedByteType : Z.
Variables RED DISCARD : Z.

Lemma run_set_maskTexture_texture (tex : Texture) (m : t) :
  set_maskTexture UnsignedByteType (Some tex) m =
  (Normal tt,
   mkMaterial (name m)
     (mkUniforms (Some tex) (u_inputBuffer (uniforms m)) (u_strength (uniforms m)))
     (if negb (type tex =? UnsignedByteType)%Z
      then <["MASK_PRECISION_HIGH" := "1"]> (delete "MASK_PRECISION_HIGH" (defines m))
      else delete "MASK_PRECISION_HIGH" (defines m))
     (toneMapped m) (depthWrite m) (depthTest m) true).
Proof.
  unfold set_maskTexture, bind, modify, member, ret; simpl.
  destruct (negb (type tex =? UnsignedByteType)%Z); reflexivity.
Qed.

Lemma run_set_maskTexture_null (m : t) :
  set_maskTexture UnsignedByteType None m =
  (Thrown TypeError,
   mkMaterial (name m)
     (mkUniforms None (u_inputBuffer (uniforms m)) (u_strength (uniforms m)))
     (delete "MASK_PRECISION_HIGH" (defines m))
     (toneMapped m) (depthWrite m) (depthTest m) (needsUpdate m)).
Proof. reflexivity. Qed.

Lemma run_set_inverted (value : bool) (m : t) :
  set_inverted value m =
  (Normal tt,
   mkMaterial (name m) (uniforms m)
     (if value then <["INVERTED" := "1"]> (defines m) else delete "INVERTED" (defines m))
     (toneMapped m) (depthWrite m) (depthTest m) true).
Proof.
  unfold set_inverted, get_inverted, bind, gets, modify, ret; simpl.
  destruct value; simpl.
  - rewrite andb_false_r. reflexivity.
  - rewrite andb_true_r. case_bool_decide as Hd; simpl; [reflexivity|].
    unfold with_needsUpdate; simpl. f_equal. f_equal.
    symmetry. apply delete_id. exact Hd.
Qed.

Lemma run_constructor (maskTexture : option Texture) :
  constructor RED DISCARD maskTexture =
  (Normal tt,
   mkMaterial "MaskMaterial" (mkUniforms maskTexture None 1)
     (<["MASK_FUNCTION" := toFixed0 DISCARD]> (<["COLOR_CHANNEL" := toFixed0 RED]> ∅))
     false false false true).
Proof. reflexivity. Qed.

End Facts.

End MaskFacts.

Module MM := MaskMaterial.
Module KB := KawaseBlurMaterial.

Section MaterialClaims.

Import JS Three.

Variable UnsignedByteType : Z.
Variables RED DISCARD : Z.

(** C2, amended.  Setting a per-frame parameter ([strength] or the input
    buffer of a mask material; [scale], [kernel] or the input buffer of a
    blur material) to any value completes normally and yields the same
    material with that one uniform replaced: [defines], [needsUpdate] and
    every other field are as before.  Setting [maskFunction], [colorChannel]
    or [inverted] to any value, or [maskTexture] to any texture, completes
    normally with [needsUpdate] equal to [true].  Assigning [null] to
    [maskTexture] is the exception: it throws a [TypeError] after the
    uniform is cleared and [MASK_PRECISION_HIGH] is deleted, and leaves
    [needsUpdate] and every other field as they were. *)
Theorem parameters_keep_needsUpdate_defines_raise_it :
  (forall (v : float) (m : MM.t),
     MM.set_strength v m =
     (Normal tt,
      MM.mkMaterial (MM.name m)
        (MM.mkUniforms (MM.u_maskTexture (MM.uniforms m))
           (MM.u_inputBuffer (MM.uniforms m)) v)
        (MM.defines m) (MM.toneMapped m) (MM.depthWrite m) (MM.depthTest m)
        (MM.needsUpdate m)))
  /\ (forall (v : option Texture) (m : MM.t),
     MM.set_inputBuffer v m =
     (Normal tt,
      MM.mkMaterial (MM.name m)
        (MM.mkUniforms (MM.u_maskTexture (MM.uniforms m)) v
           (MM.u_strength (MM.uniforms m)))
        (MM.defines m) (MM.toneMapped m) (MM.depthWrite m) (MM.depthTest m)
        (MM.needsUpdate m)))
  /\ (forall (v : float) (m : KB.t),
     KB.set_scale v m =
     (Normal tt,
      KB.mkMaterial (KB.name m)
        (KB.mkUniforms (KB.u_inputBuffer (KB.uniforms m))
           (KB.u_texelSize (KB.uniforms m)) v (KB.u_kernel (KB.uniforms m)))
        (KB.defines m) (KB.toneMapped m) (KB.depthWrite m) (KB.depthTest m)
        (KB.needsUpdate m) (KB.kernelSize m)))
  /\ (forall (v : float) (m : KB.t),
     KB.set_kernel v m =
     (Normal tt,
      KB.mkMaterial (KB.name m)
        (KB.mkUniforms (KB.u_inputBuffer (KB.uniforms m))
           (KB.u_texelSize (KB.uniforms m)) (KB.u_scale (KB.uniforms m)) v)
        (KB.defines m) (KB.toneMapped m) (KB.depthWrite m) (KB.depthTest m)
        (KB.needsUpdate m) (KB.kernelSize m)))
  /\ (forall (v : option Texture) (m : KB.t),
     KB.set_inputBuffer v m =
     (Normal tt,
      KB.mkMaterial (KB.name m)
        (KB.mkUniforms v (KB.u_texelSize (KB.uniforms m))
           (KB.u_scale (KB.uniforms m)) (KB.u_kernel (KB.uniforms m)))
        (KB.defines m) (KB.toneMapped m) (KB.depthWrite m) (KB.depthTest m)
        (KB.needsUpdate m) (KB.kernelSize m)))
  /\ (forall (v : Z) (m : MM.t),
     exists m', MM.set_maskFunction v m = (Normal tt, m')
                /\ MM.needsUpdate m' = true)
  /\ (forall (v : Z) (m : MM.t),
     exists m', MM.set_colorChannel v m = (Normal tt, m')
                /\ MM.needsUpdate m' = true)
  /\ (forall (v : bool) (m : MM.t),
     exists m', MM.set_inverted v m = (Normal tt, m')
                /\ MM.needsUpdate m' = true)
  /\ (forall (tex : Texture) (m : MM.t),
     exists m', MM.set_maskTexture UnsignedByteType (Some tex) m = (Normal tt, m')
                /\ MM.needsUpdate m' = true)
  /\ (forall m : MM.t,
     MM.set_maskTexture UnsignedByteType None m =
     (Thrown TypeError,
      MM.mkMaterial (MM.name m)
        (MM.mkUniforms None (MM.u_inputBuffer (MM.uniforms m))
           (MM.u_strength (MM.uniforms m)))
        (delete "MASK_PRECISION_HIGH" (MM.defines m))
        (MM.toneMapped m) (MM.depthWrite m) (MM.depthTest m)
        (MM.needsUpdate m))).
Proof.
  repeat split; intros; try reflexivity.
  - eexists; split; [reflexivity | reflexivity].
  - eexists; split; [reflexivity | reflexivity].
  - eexists; split; [apply MaskFacts.run_set_inverted | reflexivity].
  - eexists; split; [apply MaskFacts.run_set_maskTexture_texture | reflexivity].
Qed.

(** C8.  Assigning a texture to [maskTexture] completes normally; afterwards
    the uniform holds that texture, [MASK_PRECISION_HIGH] is defined exactly
    when the texture's type differs from [UnsignedByteType], and
    [needsUpdate] is [true].  The constructor, given a texture of any type,
    stores it in the uniform and leaves [MASK_PRECISION_HIGH] undefined. *)
Theorem maskTexture_precision_define :
  (forall (tex : Texture) (m : MM.t),
     exists m', MM.set_maskTexture UnsignedByteType (Some tex) m = (Normal tt, m')
       /\ MM.u_maskTexture (MM.uniforms m') = Some tex
       /\ (is_Some (MM.defines m' !! "MASK_PRECISION_HIGH")
           <-> type tex <> UnsignedByteType)
       /\ MM.needsUpdate m' = true)
  /\ (forall (tex : Texture),
     exists m', MM.constructor RED DISCARD (Some tex) = (Normal tt, m')
       /\ MM.u_maskTexture (MM.uniforms m') = Some tex
       /\ MM.defines m' !! "MASK_PRECISION_HIGH" = None).
Proof.
  split.
  - intros tex m. eexists. split; [apply MaskFacts.run_set_maskTexture_texture|].
    simpl. repeat split; try reflexivity.
    + destruct (Z.eqb_spec (type tex) UnsignedByteType) as [He|Hne]; simpl.
      * rewrite lookup_delete_eq. intros [s Hs]. discriminate Hs.
      * intros _. exact Hne.
    + intros Hne.
      destruct (Z.eqb_spec (type tex) UnsignedByteType) as [He|_]; [contradiction|].
      simpl. rewrite lookup_insert_eq. eexists; reflexivity.
  - intros tex. eexists. split; [apply MaskFacts.run_constructor|].
    simpl. split; [reflexivity|].
    rewrite !lookup_insert_ne by discriminate. apply lookup_empty.
Qed.

(** C9.  The [maskTexture] setter completes normally exactly when the
    assigned value is not [null].  Assigning [null] throws a [TypeError]
    after the uniform has been overwritten and [MASK_PRECISION_HIGH]
    deleted, with [needsUpdate] untouched; and [null] is what the
    constructor stores by default. *)
Theorem maskTexture_setter_total_iff_not_null :
  (forall (value : option Texture) (m : MM.t),
     returns (MM.set_maskTexture UnsignedByteType value) m <-> value <> None)
  /\ (forall (value : option Texture) (m : MM.t),
     throws (MM.set_maskTexture UnsignedByteType value) m <-> value = None)
  /\ (forall (m : MM.t),
     MM.set_maskTexture UnsignedByteType None m =
     (Thrown TypeError,
      MM.mkMaterial (MM.name m)
        (MM.mkUniforms None (MM.u_inputBuffer (MM.uniforms m))
           (MM.u_strength (MM.uniforms m)))
        (delete "MASK_PRECISION_HIGH" (MM.defines m))
        (MM.toneMapped m) (MM.depthWrite m) (MM.depthTest m) (MM.needsUpdate m)))
  /\ MM.u_maskTexture (MM.uniforms (snd (MM.constructor_default RED DISCARD))) = None.
Proof.
  repeat split.
  - intros (a & m' & Hr) ->. rewrite MaskFacts.run_set_maskTexture_null in Hr.
    discriminate Hr.
  - destruct value as [tex|]; [intros _|intros Hn; contradiction].
    eexists _, _. apply MaskFacts.run_set_maskTexture_texture.
  - intros (e & m' & Ht). destruct value as [tex|]; [|reflexivity].
    rewrite MaskFacts.run_set_maskTexture_texture in Ht. discriminate Ht.
  - intros ->. eexists _, _. apply MaskFacts.run_set_maskTexture_null.
Qed.

(** C10, amended.  Each deprecated method of the two materials returns the
    same result and leaves the same state as the accessor it stands for, on
    every argument and every material.  [setTexelSize] has no accessor: its
    replacement [setSize] takes pixel dimensions, and [setSize(w, h)] is
    [setTexelSize(1 / w, 1 / h)]. *)
Theorem deprecated_methods_agree_with_accessors :
  (forall v m, MM.setStrength v m = MM.set_strength v m)
  /\ (forall m, MM.getStrength m = MM.get_strength m)
  /\ (forall v m, MM.setInverted v m = MM.set_inverted v m)
  /\ (forall m, MM.isInverted m = MM.get_inverted m)
  /\ (forall v m,
       MM.setMaskTexture UnsignedByteType v m = MM.set_maskTexture UnsignedByteType v m)
  /\ (forall v m, MM.setColorChannel v m = MM.set_colorChannel v m)
  /\ (forall v m, MM.setMaskFunction v m = MM.set_maskFunction v m)
  /\ (forall v m, MM.setInputBuffer v m = MM.set_inputBuffer v m)
  /\ (forall v m, KB.setInputBuffer v m = KB.set_inputBuffer v m)
  /\ (forall v m, KB.setScale v m = KB.set_scale v m)
  /\ (forall m, KB.getScale m = KB.get_scale m)
  /\ (forall v m, KB.setKernel v m = KB.set_kernel v m)
  /\ (forall w h m, KB.setSize w h m = KB.setTexelSize (1 / w) (1 / h) m).
Proof. repeat split. Qed.

End MaterialClaims.

(** C2, as stated, fails for the value [null] of [maskTexture].  On a
    material that holds a float mask texture, with [MASK_PRECISION_HIGH]
    defined and no recompilation pending, the assignment
    [maskTexture = null] throws a [TypeError]; by then the uniform is
    cleared and the define deleted, and [needsUpdate] is still [false]. *)
Lemma maskTexture_null_alters_defines_without_needsUpdate :
  let UnsignedByteType := 1009%Z in
  let m :=
    MM.mkMaterial "MaskMaterial"
      (MM.mkUniforms (Some (Three.mkTexture 7 1015)) None 1)
      (<["MASK_PRECISION_HIGH" := "1"]>
         (<["MASK_FUNCTION" := "0"]> (<["COLOR_CHANNEL" := "0"]> ∅)))
      false false false false in
  MM.defines m !! "MASK_PRECISION_HIGH" = Some "1"
  /\ MM.needsUpdate m = false
  /\ fst (MM.set_maskTexture UnsignedByteType None m) = JS.Thrown JS.TypeError
  /\ MM.u_maskTexture (MM.uniforms (snd (MM.set_maskTexture UnsignedByteType None m)))
     = None
  /\ MM.defines (snd (MM.set_maskTexture UnsignedByteType None m))
       !! "MASK_PRECISION_HIGH" = None
  /\ MM.needsUpdate (snd (MM.set_maskTexture UnsignedByteType None m)) = false.
Proof. cbv zeta. repeat split; reflexivity. Qed.

(** Reading [inverted] after assigning it gives the assigned value back, and
    the material is not changed by the read. *)
Theorem inverted_reads_back (value : bool) (m : MM.t) :
  exists m', MM.set_inverted value m = (JS.Normal tt, m')
    /\ MM.get_inverted m' = (JS.Normal value, m').
Proof.
  eexists. split; [apply MaskFacts.run_set_inverted|].
  unfold MM.get_inverted, JS.gets. simpl. f_equal. f_equal.
  destruct value.
  - rewrite lookup_insert_eq. apply bool_decide_eq_true. discriminate.
  - rewrite lookup_delete_eq. apply bool_decide_eq_false. intros H. apply H. reflexivity.
Qed.

(** C10, as stated, fails for [setTexelSize]: on the same arguments it does
    not act as [setSize], the method its deprecation note points to. *)
Lemma setTexelSize_is_not_setSize :
  KB.setTexelSize 2 2 KB.super <> KB.setSize 2 2 KB.super.
Proof.
  intros H.
  apply (f_equal (fun r => PrimFloat.eqb (Three.x (KB.u_texelSize (KB.uniforms (snd r)))) 2)) in H.
  vm_compute in H. discriminate H.
Qed.

(** C3, as stated, fails: a resolution of zero by zero is not rejected; the
    texel sizes are computed from it and are all infinite. *)
Lemma setSize_accepts_zero_resolution :
  KB.setSize 0 0 KB.super =
  (JS.Normal tt,
   KB.with_uniforms
     (KB.write_texelSize (fun _ => Three.mkVector4 infinity infinity infinity infinity))
     KB.super)
  /\ ~ JS.throws (KB.setSize 0 0) KB.super.
Proof.
  split; [reflexivity|].
  apply JSFacts.returns_not_throws. eexists _, _. reflexivity.
Qed.

(** C3, amended.  [setSize] validates nothing: for every width and height,
    positive or not, it completes normally, throws nothing, and stores the
    texel sizes computed from them. *)
Theorem setSize_never_rejects (width height : float) (m : KB.t) :
  JS.returns (KB.setSize width height) m
  /\ ~ JS.throws (KB.setSize width height) m
  /\ KB.u_texelSize (KB.uniforms (snd (KB.setSize width height m))) =
     Three.mkVector4 (1 / width) (1 / height) (1 / width * 0.5) (1 / height * 0.5).
Proof.
  assert (Hr : JS.returns (KB.setSize width height) m) by (eexists _, _; reflexivity).
  split; [exact Hr|]. split; [apply JSFacts.returns_not_throws, Hr | reflexivity].
Qed.

(** C6, as stated, fails outside the normal range of doubles: for the
    positive width [2^-1024], [1 / w] overflows to infinity and stays
    infinite when halved, while [0.5 / w] is the finite number [2^1023]. *)
Lemma setSize_half_texel_differs :
  (0 <? 0x1p-1024)%float = true
  /\ Three.z (KB.u_texelSize (KB.uniforms (snd (KB.setSize 0x1p-1024 1 KB.super))))
     <> (0.5 / 0x1p-1024)%float.
Proof.
  split; [reflexivity|].
  intros H. apply (f_equal (fun a => PrimFloat.eqb a infinity)) in H.
  vm_compute in H. discriminate H.
Qed.

(** Above [2^1021] half the reciprocal is a subnormal number and is rounded
    a second time: for the width [0x1.00007p1021] the halved texel size is
    not the double [0.5 / w], although the reciprocal itself is a normal
    number. *)
Lemma halved_texel_rounds_twice_above_range :
  (0x1p1021 <? 0x1.00007p1021)%float = true
  /\ (0x1p-1022 <? 1 / 0x1.00007p1021)%float = true
  /\ Three.z (KB.u_texelSize (KB.uniforms (snd (KB.setSize 0x1.00007p1021 1 KB.super))))
     <> (0.5 / 0x1.00007p1021)%float.
Proof.
  split; [reflexivity|]. split; [reflexivity|].
  intros H. apply (f_equal (fun a => PrimFloat.Leibniz.eqb a (0.5 / 0x1.00007p1021))) in H.
  vm_compute in H. discriminate H.
Qed.

(** C6, amended.  For every width and height, [setSize(w, h)] completes
    normally, acts exactly as [setTexelSize(1 / w, 1 / h)], and yields the
    same material with the [texelSize] uniform replaced by
    [(x, y, x * 0.5, y * 0.5)] where [x = 1 / w] and [y = 1 / h]; nothing
    else changes.  For every positive width and height below [2^1021] whose
    reciprocals do not overflow, that vector is exactly
    [(1 / w, 1 / h, 0.5 / w, 0.5 / h)]. *)
Theorem setSize_sets_texelSize :
  (forall (width height : float) (m : KB.t),
     KB.setSize width height m = KB.setTexelSize (1 / width) (1 / height) m
     /\ KB.setSize width height m =
        (JS.Normal tt,
         KB.mkMaterial (KB.name m)
           (KB.mkUniforms (KB.u_inputBuffer (KB.uniforms m))
              (Three.mkVector4 (1 / width) (1 / height)
                 (1 / width * 0.5) (1 / height * 0.5))
              (KB.u_scale (KB.uniforms m)) (KB.u_kernel (KB.uniforms m)))
           (KB.defines m) (KB.toneMapped m) (KB.depthWrite m) (KB.depthTest m)
           (KB.needsUpdate m) (KB.kernelSize m)))
  /\ (forall (width height : float) (m : KB.t),
       KB.texelRange width = true ->
       KB.texelRange height = true ->
       KB.u_texelSize (KB.uniforms (snd (KB.setSize width height m))) =
       Three.mkVector4 (1 / width) (1 / height) (0.5 / width) (0.5 / height)).
Proof.
  split.
  - intros width height m. split; reflexivity.
  - intros width height m Hw Hh.
    unfold KB.texelRange in Hw, Hh.
    apply andb_true_iff in Hw as [Hw Hw3]. apply andb_true_iff in Hw as [Hw1 Hw2].
    apply andb_true_iff in Hh as [Hh Hh3]. apply andb_true_iff in Hh as [Hh1 Hh2].
    change (KB.u_texelSize (KB.uniforms (snd (KB.setSize width height m))))
      with (Three.mkVector4 (1 / width) (1 / height)
              (1 / width * 0.5) (1 / height * 0.5)).
    rewrite (Binary64Facts.halved_reciprocal width Hw1 Hw2 Hw3).
    rewrite (Binary64Facts.halved_reciprocal height Hh1 Hh2 Hh3).
    reflexivity.
Qed.

(** [setSize_sets_texelSize] at 1920 by 1080 pixels. *)
Lemma setSize_sets_texelSize_1080p :
  KB.texelRange 1920 = true
  /\ KB.texelRange 1080 = true
  /\ KB.u_texelSize (KB.uniforms (snd (KB.setSize 1920 1080 KB.super))) =
     Three.mkVector4 (1 / 1920) (1 / 1080) (0.5 / 1920) (0.5 / 1080).
Proof.
  split; [reflexivity|]. split; [reflexivity|].
  apply (proj2 setSize_sets_texelSize 1920%float 1080%float KB.super);
    reflexivity.
Defined.


(** * Facts about the callers of the materials *)

Module MaskCallFacts.

Import JS Three.
Import MaskCalls.

Lemma lastAssigned_nil {A : Type} (sel : Call -> option A) :
  lastAssigned sel [] = None.
Proof. reflexivity. Qed.

Lemma lastAssigned_snoc {A : Type} (sel : Call -> option A) (cs : list Call) (c : Call) :
  lastAssigned sel (cs ++ [c]) =
  match sel c with
  | Some a => Some a
  | None => lastAssigned sel cs
  end.
Proof.
  unfold lastAssigned. rewrite omap_app. simpl.
  destruct (sel c) as [a|]; [apply last_snoc | rewrite app_nil_r; reflexivity].
Qed.

Section Facts.

Variable UnsignedByteType : Z.

Local Abbreviation perform := (MaskCalls.perform UnsignedByteType).
Local Abbreviation after := (MaskCalls.after UnsignedByteType).

Lemma after_snoc (cs : list Call) (c : Call) (m : MM.t) :
  after (cs ++ [c]) m = snd (perform c (after cs m)).
Proof. unfold MaskCalls.after. rewrite foldl_snoc. reflexivity. Qed.

(** Every use, followed through the accessors' own equations. *)
Ltac by_use c :=
  destruct c as [v|v|[tex|]|[tex|]|v|v|v|v| |v| |v| |v| |v];
  unfold MaskCalls.perform, MM.setMaskTexture, MM.setInverted;
  rewrite ?MaskFacts.run_set_maskTexture_texture,
          ?MaskFacts.run_set_maskTexture_null,
          ?MaskFacts.run_set_inverted.

Lemma perform_defines (c : Call) (m : MM.t) :
  MM.defines (snd (perform c m)) = definesAfter UnsignedByteType c (MM.defines m).
Proof. by_use c; reflexivity. Qed.

Lemma perform_strength (c : Call) (m : MM.t) :
  MM.u_strength (MM.uniforms (snd (perform c m))) =
  default (MM.u_strength (MM.uniforms m)) (strengthOf c).
Proof. by_use c; reflexivity. Qed.

Lemma perform_inputBuffer (c : Call) (m : MM.t) :
  MM.u_inputBuffer (MM.uniforms (snd (perform c m))) =
  default (MM.u_inputBuffer (MM.uniforms m)) (inputBufferOf c).
Proof. by_use c; reflexivity. Qed.

Lemma perform_maskTexture (c : Call) (m : MM.t) :
  MM.u_maskTexture (MM.uniforms (snd (perform c m))) =
  default (MM.u_maskTexture (MM.uniforms m)) (maskTextureOf c).
Proof. by_use c; reflexivity. Qed.

Lemma perform_fixed (c : Call) (m : MM.t) :
  MM.name (snd (perform c m)) = MM.name m
  /\ MM.toneMapped (snd (perform c m)) = MM.toneMapped m
  /\ MM.depthWrite (snd (perform c m)) = MM.depthWrite m
  /\ MM.depthTest (snd (perform c m)) = MM.depthTest m.
Proof. by_use c; repeat split. Qed.

Lemma perform_needsUpdate (c : Call) (m : MM.t) :
  MM.needsUpdate m = true -> MM.needsUpdate (snd (perform c m)) = true.
Proof. by_use c; intros H; try exact H; reflexivity. Qed.

(** A part of the state that every use either overwrites with what it
    assigns or leaves alone holds, after any uses, what the last assigning
    use gave it. *)
Lemma last_write {A B : Type} (part : MM.t -> A) (sel : Call -> option B) (f : B -> A) :
  (forall c m, part (snd (perform c m)) = from_option f (part m) (sel c)) ->
  forall cs m, part (after cs m) = from_option f (part m) (lastAssigned sel cs).
Proof.
  intros Hstep cs m. induction cs as [|c cs IH] using rev_ind; [reflexivity|].
  rewrite after_snoc, lastAssigned_snoc, Hstep, IH.
  destruct (sel c); reflexivity.
Qed.

Lemma perform_colorChannel (c : Call) (m : MM.t) :
  MM.defines (snd (perform c m)) !! "COLOR_CHANNEL" =
  from_option (fun v => Some (toFixed0 v)) (MM.defines m !! "COLOR_CHANNEL")
    (colorChannelOf c).
Proof.
  rewrite perform_defines.
  destruct c as [v|v|[tex|]|[tex|]|v|v|v|v| |v| |v| |v| |v]; simpl;
    try destruct (negb _); try destruct v; by simplify_map_eq.
Qed.

Lemma perform_maskFunction (c : Call) (m : MM.t) :
  MM.defines (snd (perform c m)) !! "MASK_FUNCTION" =
  from_option (fun v => Some (toFixed0 v)) (MM.defines m !! "MASK_FUNCTION")
    (maskFunctionOf c).
Proof.
  rewrite perform_defines.
  destruct c as [v|v|[tex|]|[tex|]|v|v|v|v| |v| |v| |v| |v]; simpl;
    try destruct (negb _); try destruct v; by simplify_map_eq.
Qed.

Lemma perform_inverted (c : Call) (m : MM.t) :
  invertedIn (snd (perform c m)) = from_option id (invertedIn m) (invertedOf c).
Proof.
  unfold invertedIn. rewrite perform_defines.
  destruct c as [v|v|[tex|]|[tex|]|v|v|v|v| |v| |v| |v| |v]; simpl;
    try destruct (negb _); try destruct v; by simplify_map_eq.
Qed.

Lemma perform_precision (c : Call) (m : MM.t) :
  bool_decide (is_Some (MM.defines (snd (perform c m)) !! "MASK_PRECISION_HIGH")) =
  from_option (highPrecision UnsignedByteType)
    (bool_decide (is_Some (MM.defines m !! "MASK_PRECISION_HIGH")))
    (maskTextureOf c).
Proof.
  rewrite perform_defines.
  destruct c as [v|v|[tex|]|[tex|]|v|v|v|v| |v| |v| |v| |v]; simpl;
    try destruct (negb _); try destruct v; simplify_map_eq;
    try reflexivity;
    try (apply bool_decide_eq_true; eexists; reflexivity);
    apply bool_decide_eq_false; intros [? ?]; discriminate.
Qed.

Lemma strength_after (cs : list Call) (m : MM.t) :
  MM.u_strength (MM.uniforms (after cs m)) =
  default (MM.u_strength (MM.uniforms m)) (lastAssigned strengthOf cs).
Proof.
  apply (last_write (fun m => MM.u_strength (MM.uniforms m)) strengthOf id).
  apply perform_strength.
Qed.

Lemma maskTexture_after (cs : list Call) (m : MM.t) :
  MM.u_maskTexture (MM.uniforms (after cs m)) =
  default (MM.u_maskTexture (MM.uniforms m)) (lastAssigned maskTextureOf cs).
Proof.
  apply (last_write (fun m => MM.u_maskTexture (MM.uniforms m)) maskTextureOf id).
  apply perform_maskTexture.
Qed.

(** After any uses of a mask material, in any order and whether or not
    some of them threw, each uniform holds the value of the last use that
    assigned to it, or its old value when none did; an assignment of [null]
    to [maskTexture] counts although it throws.  Reading [strength] then
    returns that value and changes nothing. *)
Theorem uniforms_hold_last_assigned (cs : list Call) (m : MM.t) :
  MM.u_strength (MM.uniforms (after cs m)) =
    default (MM.u_strength (MM.uniforms m)) (lastAssigned strengthOf cs)
  /\ MM.u_inputBuffer (MM.uniforms (after cs m)) =
    default (MM.u_inputBuffer (MM.uniforms m)) (lastAssigned inputBufferOf cs)
  /\ MM.u_maskTexture (MM.uniforms (after cs m)) =
    default (MM.u_maskTexture (MM.uniforms m)) (lastAssigned maskTextureOf cs)
  /\ MM.getStrength (after cs m) =
    (Normal (default (MM.u_strength (MM.uniforms m)) (lastAssigned strengthOf cs)),
     after cs m).
Proof.
  split; [apply strength_after|]. split; [|split].
  - apply (last_write (fun m => MM.u_inputBuffer (MM.uniforms m)) inputBufferOf id).
    apply perform_inputBuffer.
  - apply maskTexture_after.
  - unfold MM.getStrength, MM.get_strength, gets. rewrite strength_after. reflexivity.
Qed.

(** After any uses of a mask material, [COLOR_CHANNEL] and [MASK_FUNCTION]
    are the decimal digits of the last channel and the last function
    assigned, or what they were when none was assigned, and the [inverted]
    getter returns the last value assigned to [inverted], or what it
    returned before when none was. *)
Theorem defines_hold_last_assigned (cs : list Call) (m : MM.t) :
  MM.defines (after cs m) !! "COLOR_CHANNEL" =
    match lastAssigned colorChannelOf cs with
    | Some v => Some (toFixed0 v)
    | None => MM.defines m !! "COLOR_CHANNEL"
    end
  /\ MM.defines (after cs m) !! "MASK_FUNCTION" =
    match lastAssigned maskFunctionOf cs with
    | Some v => Some (toFixed0 v)
    | None => MM.defines m !! "MASK_FUNCTION"
    end
  /\ MM.isInverted (after cs m) =
    (Normal (default (invertedIn m) (lastAssigned invertedOf cs)), after cs m).
Proof.
  split; [|split].
  - rewrite (last_write (fun m => MM.defines m !! "COLOR_CHANNEL") colorChannelOf
               (fun v => Some (toFixed0 v)) perform_colorChannel).
    destruct (lastAssigned colorChannelOf cs); reflexivity.
  - rewrite (last_write (fun m => MM.defines m !! "MASK_FUNCTION") maskFunctionOf
               (fun v => Some (toFixed0 v)) perform_maskFunction).
    destruct (lastAssigned maskFunctionOf cs); reflexivity.
  - unfold MM.isInverted, MM.get_inverted, gets. f_equal. f_equal.
    apply (last_write invertedIn invertedOf id perform_inverted).
Qed.

Lemma precision_after (cs : list Call) (m : MM.t) :
  bool_decide (is_Some (MM.defines (after cs m) !! "MASK_PRECISION_HIGH")) =
  from_option (highPrecision UnsignedByteType)
    (bool_decide (is_Some (MM.defines m !! "MASK_PRECISION_HIGH")))
    (lastAssigned maskTextureOf cs).
Proof.
  apply (last_write
           (fun m => bool_decide (is_Some (MM.defines m !! "MASK_PRECISION_HIGH")))
           maskTextureOf (highPrecision UnsignedByteType) perform_precision).
Qed.

(** [MASK_PRECISION_HIGH] follows the mask texture.  Uses of a material on
    which the macro agrees with the texture in the uniform leave them in
    agreement; whatever the material, they agree after any uses among which
    [maskTexture] is assigned at least once; and they agree after any uses
    of a material constructed without a texture. *)
Theorem precision_define_follows_texture :
  (forall (cs : list Call) (m : MM.t),
     precisionAgrees UnsignedByteType m ->
     precisionAgrees UnsignedByteType (after cs m))
  /\ (forall (cs : list Call) (m : MM.t),
     lastAssigned maskTextureOf cs <> None ->
     precisionAgrees UnsignedByteType (after cs m))
  /\ (forall (RED DISCARD : Z) (cs : list Call),
     precisionAgrees UnsignedByteType
       (after cs (snd (MM.constructor_default RED DISCARD)))).
Proof.
  assert (Hkeep : forall cs m, precisionAgrees UnsignedByteType m ->
                    precisionAgrees UnsignedByteType (after cs m)).
  { intros cs m Hm. unfold precisionAgrees in *.
    rewrite <- (bool_decide_eq_true (is_Some (MM.defines (after cs m) !! _))).
    rewrite precision_after, maskTexture_after.
    destruct (lastAssigned maskTextureOf cs) as [v|]; simpl; [reflexivity|].
    rewrite bool_decide_eq_true. exact Hm. }
  split; [exact Hkeep|]. split.
  - intros cs m Hsome. unfold precisionAgrees.
    rewrite <- (bool_decide_eq_true (is_Some (MM.defines (after cs m) !! _))).
    rewrite precision_after, maskTexture_after.
    destruct (lastAssigned maskTextureOf cs) as [v|]; [reflexivity|contradiction].
  - intros RED DISCARD cs. apply Hkeep.
    unfold MM.constructor_default. rewrite MaskFacts.run_constructor.
    unfold precisionAgrees. simpl. split.
    + intros [s Hs]. rewrite !lookup_insert_ne in Hs by discriminate.
      rewrite lookup_empty in Hs. discriminate Hs.
    + discriminate.
Qed.

Lemma dom_insert_managed (k v : string) (d : gmap string string) :
  k ∈ managed -> dom d ⊆ managed -> dom (<[k:=v]> d) ⊆ managed.
Proof.
  intros Hk Hd x. rewrite dom_insert, elem_of_union, elem_of_singleton.
  intros [->|Hx]; [exact Hk | exact (Hd x Hx)].
Qed.

Lemma dom_delete_managed (k : string) (d : gmap string string) :
  dom d ⊆ managed -> dom (delete k d) ⊆ managed.
Proof.
  intros Hd x. rewrite dom_delete, elem_of_difference.
  intros [Hx _]. exact (Hd x Hx).
Qed.

Lemma definesAfter_wellFormed (c : Call) (d : gmap string string) :
  wellFormedDefines d -> wellFormedDefines (definesAfter UnsignedByteType c d).
Proof.
  intros (Hcc & Hmf & Hdom & Hinv & Hmph).
  unfold wellFormedDefines in *.
  destruct c as [v|v|[tex|]|[tex|]|v|v|v|v| |v| |v| |v| |v]; simpl;
    try destruct (negb _); try destruct v;
    (split; [|split; [|split; [|split]]]);
    try assumption;
    try (intros w Hw; simplify_map_eq; by eauto);
    try (simplify_map_eq; by eauto);
    repeat first [ apply dom_insert_managed; [by vm_compute|]
                 | apply dom_delete_managed ];
    exact Hdom.
Qed.

Lemma definesAfter_other (c : Call) (d : gmap string string) (k : string) :
  k ∉ managed -> definesAfter UnsignedByteType c d !! k = d !! k.
Proof.
  unfold managed. intros Hk.
  assert (k <> "MASK_PRECISION_HIGH" /\ k <> "COLOR_CHANNEL"
          /\ k <> "MASK_FUNCTION" /\ k <> "INVERTED") as (H1 & H2 & H3 & H4)
    by set_solver.
  destruct c as [v|v|[tex|]|[tex|]|v|v|v|v| |v| |v| |v| |v]; simpl;
    try destruct (negb _); try destruct v; by simplify_map_eq.
Qed.

(** A material that comes from the constructor, with or without a mask
    texture, keeps a well-formed [defines] object through any uses:
    [COLOR_CHANNEL] and [MASK_FUNCTION] stay defined, no macro other than
    the four managed ones appears, [INVERTED] and [MASK_PRECISION_HIGH] are
    ["1"] whenever they are defined; and [needsUpdate] stays [true]. *)
Theorem constructed_defines_stay_wellFormed
    (RED DISCARD : Z) (maskTexture : option Texture) (cs : list Call) :
  wellFormedDefines
    (MM.defines (after cs (snd (MM.constructor RED DISCARD maskTexture))))
  /\ MM.needsUpdate (after cs (snd (MM.constructor RED DISCARD maskTexture))) = true.
Proof.
  rewrite MaskFacts.run_constructor. cbn [snd].
  induction cs as [|c cs [IHd IHn]] using rev_ind.
  - split; [|reflexivity]. cbn. unfold wellFormedDefines.
    split; [|split; [|split; [|split]]].
    + simplify_map_eq. by eauto.
    + simplify_map_eq. by eauto.
    + repeat (apply dom_insert_managed; [by vm_compute|]).
      rewrite dom_empty. apply empty_subseteq.
    + intros v Hv. simplify_map_eq.
    + intros v Hv. simplify_map_eq.
  - rewrite after_snoc. split.
    + rewrite perform_defines. apply definesAfter_wellFormed, IHd.
    + apply perform_needsUpdate, IHn.
Qed.

(** No use of a mask material touches what the class does not manage: a
    macro other than the four managed ones is, after any uses, defined as
    it was before or as undefined as before, and the name and the three
    render flags are unchanged. *)
Theorem unmanaged_state_untouched (cs : list Call) (m : MM.t) :
  (forall k : string, k ∉ managed ->
     MM.defines (after cs m) !! k = MM.defines m !! k)
  /\ MM.name (after cs m) = MM.name m
  /\ MM.toneMapped (after cs m) = MM.toneMapped m
  /\ MM.depthWrite (after cs m) = MM.depthWrite m
  /\ MM.depthTest (after cs m) = MM.depthTest m.
Proof.
  induction cs as [|c cs (IHd & IHn & IHt & IHw & IHz)] using rev_ind.
  - repeat split.
  - rewrite after_snoc.
    destruct (perform_fixed c (after cs m)) as (Hn & Ht & Hw & Hz).
    split; [|rewrite Hn, Ht, Hw, Hz; repeat split; assumption].
    intros k Hk. rewrite perform_defines, definesAfter_other by exact Hk.
    apply IHd, Hk.
Qed.

(** The one use of a mask material that throws is the assignment of [null]
    to [maskTexture], by the setter or by [setMaskTexture]; every other use
    completes normally on every material.  No use, throwing or not, takes
    back a request to recompile: [needsUpdate], once [true], is [true]
    after any uses. *)
Theorem uses_throw_only_on_null_mask (c : Call) (cs : list Call) (m : MM.t) :
  (throws (perform c) m <-> maskTextureOf c = Some None)
  /\ (returns (perform c) m <-> maskTextureOf c <> Some None)
  /\ (MM.needsUpdate m = true -> MM.needsUpdate (after cs m) = true).
Proof.
  assert (Hcase : (returns (perform c) m /\ maskTextureOf c <> Some None)
                  \/ (throws (perform c) m /\ maskTextureOf c = Some None)).
  { unfold returns, throws. by_use c;
      first [ right; split; [eexists _, _; reflexivity | reflexivity]
            | left; split; [eexists _, _; reflexivity | discriminate] ]. }
  split; [|split].
  - destruct Hcase as [[Hr Hne]|[Ht He]].
    + split; [intros Ht; destruct (JSFacts.returns_not_throws _ _ Hr Ht)
             | intros He; contradiction].
    + split; intros _; assumption.
  - destruct Hcase as [[Hr Hne]|[Ht He]].
    + split; intros _; assumption.
    + split; [intros Hr; destruct (JSFacts.returns_not_throws _ _ Hr Ht)
             | intros Hne; contradiction].
  - intros Hn. induction cs as [|c' cs IH] using rev_ind; [exact Hn|].
    rewrite after_snoc. apply perform_needsUpdate, IH.
Qed.

End Facts.

(** [precision_define_follows_texture] on a material constructed with a
    float texture, which is then assigned again and replaced by a byte
    texture. *)
Lemma precision_follows_texture_sample :
  precisionAgrees 1009
    (MaskCalls.after 1009
       [AssignMaskTexture (Some (mkTexture 7 1015));
        AssignStrength 0.5;
        CallSetMaskTexture (Some (mkTexture 8 1009))]
       (snd (MM.constructor 0 0 (Some (mkTexture 7 1015))))).
Proof.
  apply (proj1 (proj2 (precision_define_follows_texture 1009))).
  discriminate.
Defined.

(** [unmanaged_state_untouched] on a material that carries a macro of the
    caller's own. *)
Lemma unmanaged_macro_sample :
  MM.defines
    (MaskCalls.after 1009
       [AssignInverted true; AssignMaskTexture None; CallSetColorChannel 2]
       (MM.with_defines <["USE_FOG" := "1"]> (snd (MM.constructor 0 0 None))))
    !! "USE_FOG" = Some "1".
Proof.
  rewrite (proj1 (unmanaged_state_untouched 1009
                    [AssignInverted true; AssignMaskTexture None; CallSetColorChannel 2]
                    (MM.with_defines <["USE_FOG" := "1"]> (snd (MM.constructor 0 0 None))))
             "USE_FOG").
  - reflexivity.
  - by vm_compute.
Defined.

(** [uses_throw_only_on_null_mask] on a freshly constructed material. *)
Lemma needsUpdate_stays_sample :
  MM.needsUpdate
    (MaskCalls.after 1009 [AssignMaskTexture None; AssignStrength 0.25]
       (snd (MM.constructor 0 0 None))) = true.
Proof.
  apply (proj2 (proj2 (uses_throw_only_on_null_mask 1009 ReadStrength
                         [AssignMaskTexture None; AssignStrength 0.25]
                         (snd (MM.constructor 0 0 None))))).
  reflexivity.
Defined.

(** The macros determine the channel and the function: assigning two
    different channels, or two different functions, leaves two different
    values of [COLOR_CHANNEL], or of [MASK_FUNCTION]. *)
Theorem channel_and_function_macros_are_injective (a b : Z) (m : MM.t) :
  (MM.defines (snd (MM.set_colorChannel a m)) !! "COLOR_CHANNEL" =
   MM.defines (snd (MM.set_colorChannel b m)) !! "COLOR_CHANNEL" -> a = b)
  /\ (MM.defines (snd (MM.set_maskFunction a m)) !! "MASK_FUNCTION" =
      MM.defines (snd (MM.set_maskFunction b m)) !! "MASK_FUNCTION" -> a = b).
Proof.
  split; simpl; rewrite !lookup_insert_eq; intros H;
    inversion H as [H']; exact (pretty_Z_inj _ _ H').
Qed.

(** [channel_and_function_macros_are_injective] on the channel 3. *)
Lemma channel_macro_sample :
  MM.defines (snd (MM.set_colorChannel 3 (MM.super None))) !! "COLOR_CHANNEL" = Some "3"
  /\ (3 = 3)%Z.
Proof.
  split; [reflexivity|].
  apply (proj1 (channel_and_function_macros_are_injective 3 3 (MM.super None))).
  reflexivity.
Defined.

End MaskCallFacts.

Module BlurCallFacts.

Import JS Three.
Import BlurCalls.

Lemma blur_lastAssigned_snoc {A : Type} (sel : Call -> option A) (cs : list Call) (c : Call) :
  lastAssigned sel (cs ++ [c]) =
  match sel c with
  | Some a => Some a
  | None => lastAssigned sel cs
  end.
Proof.
  unfold lastAssigned. rewrite omap_app. simpl.
  destruct (sel c) as [a|]; [apply last_snoc | rewrite app_nil_r; reflexivity].
Qed.

Lemma blur_after_snoc (cs : list Call) (c : Call) (m : KB.t) :
  after (cs ++ [c]) m = snd (perform c (after cs m)).
Proof. unfold after. rewrite foldl_snoc. reflexivity. Qed.

(** What one use does: it completes normally and replaces the parts it
    assigns to, nothing else. *)
Lemma perform_effect (c : Call) (m : KB.t) :
  perform c m =
  (Normal tt,
   KB.mkMaterial (KB.name m)
     (KB.mkUniforms
        (default (KB.u_inputBuffer (KB.uniforms m)) (inputBufferOf c))
        (default (KB.u_texelSize (KB.uniforms m)) (texelSizeOf c))
        (default (KB.u_scale (KB.uniforms m)) (scaleOf c))
        (default (KB.u_kernel (KB.uniforms m)) (kernelOf c)))
     (KB.defines m) (KB.toneMapped m) (KB.depthWrite m) (KB.depthTest m)
     (KB.needsUpdate m)
     (match kernelSizeOf c with
      | Some k => Some k
      | None => KB.kernelSize m
      end)).
Proof. destruct m as [n [ib ts sc ke] d tm dw dt nu ks]. destruct c; reflexivity. Qed.

Lemma blur_last_write {A B : Type} (part : KB.t -> A) (sel : Call -> option B) (f : B -> A) :
  (forall c m, part (snd (perform c m)) = from_option f (part m) (sel c)) ->
  forall cs m, part (after cs m) = from_option f (part m) (lastAssigned sel cs).
Proof.
  intros Hstep cs m. induction cs as [|c cs IH] using rev_ind; [reflexivity|].
  rewrite blur_after_snoc, blur_lastAssigned_snoc, Hstep, IH.
  destruct (sel c); reflexivity.
Qed.

Lemma texelSize_after (cs : list Call) (m : KB.t) :
  KB.u_texelSize (KB.uniforms (after cs m)) =
  default (KB.u_texelSize (KB.uniforms m)) (lastAssigned texelSizeOf cs).
Proof.
  apply (blur_last_write (fun m => KB.u_texelSize (KB.uniforms m)) texelSizeOf id).
  intros c m'. rewrite perform_effect. reflexivity.
Qed.

Lemma scale_after (cs : list Call) (m : KB.t) :
  KB.u_scale (KB.uniforms (after cs m)) =
  default (KB.u_scale (KB.uniforms m)) (lastAssigned scaleOf cs).
Proof.
  apply (blur_last_write (fun m => KB.u_scale (KB.uniforms m)) scaleOf id).
  intros c m'. rewrite perform_effect. reflexivity.
Qed.

Lemma kernelSize_after (cs : list Call) (m : KB.t) :
  KB.kernelSize (after cs m) =
  from_option Some (KB.kernelSize m) (lastAssigned kernelSizeOf cs).
Proof.
  apply (blur_last_write KB.kernelSize kernelSizeOf Some).
  intros c m'. rewrite perform_effect. simpl. destruct (kernelSizeOf c); reflexivity.
Qed.

Lemma texelSizeOf_halved (c : Call) (v : Vector4) :
  texelSizeOf c = Some v -> halved v.
Proof.
  destruct c; simpl; intros H; inversion H; subst; split; reflexivity.
Qed.

Lemma lastAssigned_from {A : Type} (sel : Call -> option A) (cs : list Call) (a : A) :
  lastAssigned sel cs = Some a -> exists c, In c cs /\ sel c = Some a.
Proof.
  induction cs as [|c cs IH] using rev_ind; [discriminate|].
  rewrite blur_lastAssigned_snoc. destruct (sel c) as [a'|] eqn:Hc.
  - intros H. inversion H; subst. exists c. split; [|exact Hc].
    apply in_or_app. right. left. reflexivity.
  - intros H. destruct (IH H) as (c' & Hin & Hsel).
    exists c'. split; [|exact Hsel]. apply in_or_app. left. exact Hin.
Qed.

(** No use of a blur material throws, and none asks for a recompilation
    or touches the macros: after any uses, [defines], [needsUpdate], the
    name and the three render flags are what they were. *)
Theorem blur_uses_never_throw_nor_recompile (c : Call) (cs : list Call) (m : KB.t) :
  returns (perform c) m
  /\ ~ throws (perform c) m
  /\ KB.defines (after cs m) = KB.defines m
  /\ KB.needsUpdate (after cs m) = KB.needsUpdate m
  /\ KB.name (after cs m) = KB.name m
  /\ KB.toneMapped (after cs m) = KB.toneMapped m
  /\ KB.depthWrite (after cs m) = KB.depthWrite m
  /\ KB.depthTest (after cs m) = KB.depthTest m.
Proof.
  assert (Hr : returns (perform c) m).
  { unfold returns. rewrite perform_effect. eexists _, _. reflexivity. }
  split; [exact Hr|]. split; [apply JSFacts.returns_not_throws, Hr|].
  induction cs as [|c' cs (IHd & IHn & IHm & IHt & IHw & IHz)] using rev_ind.
  - repeat split.
  - rewrite blur_after_snoc, perform_effect. simpl. repeat split; assumption.
Qed.

(** The texel size of a blur material stays halved: on a material that
    comes from the constructor, whatever vector it was given, the last two
    components of the [texelSize] uniform are [x * 0.5] and [y * 0.5] of its
    first two, after any uses.  The same holds from any material on which it
    held, and from any material at all once [setSize] or [setTexelSize] has
    been called. *)
Theorem texelSize_stays_halved :
  (forall (MEDIUM : Z) (texelSize : Vector4) (cs : list Call),
     halved (KB.u_texelSize (KB.uniforms (after cs (snd (KB.constructor MEDIUM texelSize))))))
  /\ (forall (cs : list Call) (m : KB.t),
     halved (KB.u_texelSize (KB.uniforms m)) ->
     halved (KB.u_texelSize (KB.uniforms (after cs m))))
  /\ (forall (cs : list Call) (m : KB.t),
     lastAssigned texelSizeOf cs <> None ->
     halved (KB.u_texelSize (KB.uniforms (after cs m)))).
Proof.
  assert (Hlast : forall cs v, lastAssigned texelSizeOf cs = Some v -> halved v).
  { intros cs v Hv. destruct (lastAssigned_from _ _ _ Hv) as (c & _ & Hc).
    exact (texelSizeOf_halved c v Hc). }
  assert (Hkeep : forall cs m, halved (KB.u_texelSize (KB.uniforms m)) ->
                    halved (KB.u_texelSize (KB.uniforms (after cs m)))).
  { intros cs m Hm. rewrite texelSize_after.
    destruct (lastAssigned texelSizeOf cs) as [v|] eqn:Hv; simpl;
      [exact (Hlast cs v Hv) | exact Hm]. }
  split; [|split].
  - intros MEDIUM texelSize cs. apply Hkeep. split; reflexivity.
  - exact Hkeep.
  - intros cs m Hsome. rewrite texelSize_after.
    destruct (lastAssigned texelSizeOf cs) as [v|] eqn:Hv; simpl;
      [exact (Hlast cs v Hv) | contradiction].
Qed.

(** After any uses of a blur material each part of its state holds what the
    last use that assigned to it stored, or its old value when none did.
    [setSize] and [setTexelSize] write the same uniform, so the later of the
    two decides the texel size.  The getters of [scale] then return the last
    scale assigned, and the kernel sequence is the preset of the last kernel
    size assigned. *)
Theorem blur_state_holds_last_assigned (cs : list Call) (m : KB.t) :
  KB.u_texelSize (KB.uniforms (after cs m)) =
    default (KB.u_texelSize (KB.uniforms m)) (lastAssigned texelSizeOf cs)
  /\ KB.u_scale (KB.uniforms (after cs m)) =
    default (KB.u_scale (KB.uniforms m)) (lastAssigned scaleOf cs)
  /\ KB.u_kernel (KB.uniforms (after cs m)) =
    default (KB.u_kernel (KB.uniforms m)) (lastAssigned kernelOf cs)
  /\ KB.u_inputBuffer (KB.uniforms (after cs m)) =
    default (KB.u_inputBuffer (KB.uniforms m)) (lastAssigned inputBufferOf cs)
  /\ KB.getScale (after cs m) =
    (Normal (default (KB.u_scale (KB.uniforms m)) (lastAssigned scaleOf cs)), after cs m)
  /\ KB.get_scale (after cs m) = KB.getScale (after cs m)
  /\ KB.get_kernelSequence (after cs m) =
    (Normal (match lastAssigned kernelSizeOf cs with
             | Some k => KB.index KB.kernelPresets k
             | None => k ← KB.kernelSize m; KB.index KB.kernelPresets k
             end),
     after cs m).
Proof.
  split; [apply texelSize_after|]. split; [apply scale_after|].
  split; [|split; [|split; [|split]]].
  - apply (blur_last_write (fun m => KB.u_kernel (KB.uniforms m)) kernelOf id).
    intros c m'. rewrite perform_effect. reflexivity.
  - apply (blur_last_write (fun m => KB.u_inputBuffer (KB.uniforms m)) inputBufferOf id).
    intros c m'. rewrite perform_effect. reflexivity.
  - unfold KB.getScale, gets. rewrite scale_after. reflexivity.
  - reflexivity.
  - unfold KB.get_kernelSequence, gets. rewrite kernelSize_after.
    destruct (lastAssigned kernelSizeOf cs); reflexivity.
Qed.

Lemma index_kernelPresets_cases (k : Z) (s : list float) :
  KB.index KB.kernelPresets k = Some s ->
  (k = 0 \/ k = 1 \/ k = 2 \/ k = 3 \/ k = 4 \/ k = 5)%Z.
Proof.
  unfold KB.index. destruct (Z.ltb_spec k 0) as [Hneg|Hpos]; [discriminate|].
  intros Hs. apply lookup_lt_Some in Hs. simpl in Hs. lia.
Qed.

(** The kernel sequence by kernel size.  For the sizes 0 to 5 the getter
    returns a sequence of at least two offsets that starts at 0 and never
    decreases; for any other size, and before a size is assigned, it
    returns [undefined].  A larger size has a longer sequence.  The getter
    never changes the material. *)
Theorem kernelSequence_by_size :
  (forall (m : KB.t) (k : Z),
     KB.kernelSize m = Some k -> (0 <= k <= 5)%Z ->
     exists s, KB.get_kernelSequence m = (Normal (Some s), m)
       /\ head s = Some 0%float
       /\ ascending s = true
       /\ 2 <= length s)
  /\ (forall (m : KB.t) (k : Z),
     KB.kernelSize m = Some k -> ~ (0 <= k <= 5)%Z ->
     KB.get_kernelSequence m = (Normal None, m))
  /\ (forall (m : KB.t),
     KB.kernelSize m = None -> KB.get_kernelSequence m = (Normal None, m))
  /\ (forall (j k : Z) (s t : list float),
     KB.index KB.kernelPresets j = Some s ->
     KB.index KB.kernelPresets k = Some t ->
     (j < k)%Z -> length s < length t).
Proof.
  split; [|split; [|split]].
  - intros m k Hk Hrange. unfold KB.get_kernelSequence, gets. rewrite Hk.
    assert (k = 0 \/ k = 1 \/ k = 2 \/ k = 3 \/ k = 4 \/ k = 5)%Z
      as [->|[->|[->|[->|[->| ->]]]]] by lia;
      eexists; (split; [reflexivity|]); repeat split; simpl; lia.
  - intros m k Hk Hout. unfold KB.get_kernelSequence, gets. rewrite Hk. simpl.
    destruct (KB.index KB.kernelPresets k) as [s|] eqn:Hs; [|reflexivity].
    apply index_kernelPresets_cases in Hs. lia.
  - intros m Hk. unfold KB.get_kernelSequence, gets. rewrite Hk. reflexivity.
  - intros j k s t Hs Ht Hlt.
    pose proof (index_kernelPresets_cases j s Hs) as Hj.
    pose proof (index_kernelPresets_cases k t Ht) as Hk.
    destruct Hj as [->|[->|[->|[->|[->| ->]]]]];
      destruct Hk as [->|[->|[->|[->|[->| ->]]]]];
      try lia; inversion Hs; inversion Ht; subst; simpl; lia.
Qed.

(** [texelSize_stays_halved] on a material that has not been through the
    constructor, once [setSize] is called. *)
Lemma texelSize_halved_sample :
  halved (KB.u_texelSize (KB.uniforms
            (after [CallSetSize 1920 1080; AssignScale 2] KB.super))).
Proof.
  apply (proj2 (proj2 texelSize_stays_halved)). discriminate.
Defined.

(** [kernelSequence_by_size] on a material of kernel size 2. *)
Lemma kernelSequence_sample :
  exists s,
    KB.get_kernelSequence (snd (KB.constructor 2 Vector4_new)) =
    (Normal (Some s), snd (KB.constructor 2 Vector4_new))
    /\ head s = Some 0%float /\ ascending s = true /\ 2 <= length s.
Proof.
  apply (proj1 kernelSequence_by_size (snd (KB.constructor 2 Vector4_new)) 2%Z).
  - reflexivity.
  - lia.
Defined.

End BlurCallFacts.
(** * Facts about the pass pipeline *)

Module PipelineFacts.

Import Pipeline.

Section Merge.

Context {Frag : Type}.
Implicit Types (effects decls : list (Effect Frag)) (frag : Frag) (c : Color).

Lemma exec_app decls frag (code1 code2 : list Instr) (r : Regs) :
  exec decls frag (code1 ++ code2) r =
  exec decls frag code1 r ≫= exec decls frag code2.
Proof.
  revert r. induction code1 as [|ins code1 IH]; intros r; simpl; [reflexivity|].
  destruct (step decls frag r ins) as [r'|]; simpl; [apply IH | reflexivity].
Qed.

Lemma exec_stageCode decls frag (i : nat) (e : Effect Frag) (r : Regs) :
  decls !! i = Some e ->
  exec decls frag (stageCode i) r =
  Some (mkRegs (stage e frag (color r)) (mainImage e (color r) frag)).
Proof.
  intros Hi. unfold stageCode. simpl. rewrite Hi. simpl. reflexivity.
Qed.

(** The stages of the effects that follow [pre] in the declarations thread
    the running colour through them from left to right. *)
Lemma exec_stages (pre : list (Effect Frag)) effects frag (r : Regs) :
  color <$> exec (pre ++ effects) frag
              (flat_map stageCode (seq (length pre) (length effects))) r =
  Some (foldl (fun acc e => stage e frag acc) (color r) effects).
Proof.
  revert pre r. induction effects as [|e effects IH]; intros pre r.
  - reflexivity.
  - cbn [length seq flat_map]. rewrite exec_app, (exec_stageCode _ _ _ e).
    2: { rewrite lookup_app_r by lia. rewrite Nat.sub_diag. reflexivity. }
    cbn [mbind option_bind foldl].
    specialize (IH (pre ++ [e]) (mkRegs (stage e frag (color r)) (mainImage e (color r) frag))).
    rewrite <- app_assoc in IH. simpl in IH.
    rewrite length_app in IH. simpl in IH.
    replace (length pre + 1)%nat with (S (length pre)) in IH by lia.
    exact IH.
Qed.

Lemma foldl_is_composition effects frag c :
  foldl (fun acc e => stage e frag acc) c effects = composition effects frag c.
Proof.
  unfold composition. revert c.
  induction effects as [|e effects IH]; intros c; simpl; [reflexivity|].
  rewrite foldr_app. simpl. apply IH.
Qed.

Lemma runProgram_assemble effects frag c :
  runProgram (assemble effects) frag c = Some (composition effects frag c).
Proof.
  unfold runProgram, assemble. simpl.
  rewrite <- foldl_is_composition.
  apply (exec_stages [] effects frag (mkRegs c c)).
Qed.

Lemma wellFormed_assemble effects : wellFormed (assemble effects) = true.
Proof.
  unfold wellFormed, assemble. simpl.
  apply forallb_forall. intros ins Hin.
  apply in_flat_map in Hin as (i & Hi & Hins).
  apply in_seq in Hi.
  apply Nat.ltb_lt.
  unfold stageCode in Hins. simpl in Hins.
  destruct Hins as [<-|[<-|[]]]; simpl; lia.
Qed.

Lemma compile_assemble effects :
  compile (assemble effects) =
  Ok (fun frag c => default c (runProgram (assemble effects) frag c)).
Proof. unfold compile. rewrite wellFormed_assemble. reflexivity. Qed.

Lemma merge_ok effects :
  effects <> [] -> compatible effects = true ->
  merge effects = Ok (fun frag c => default c (runProgram (assemble effects) frag c)).
Proof.
  intros Hne Hc. destruct effects as [|e effects]; [contradiction|].
  unfold merge. rewrite Hc. apply compile_assemble.
Qed.

Lemma merge_err effects (e : Error) :
  merge effects = Err e -> e = ConfigurationError.
Proof.
  destruct effects as [|e0 effects]; simpl.
  - intros H. inversion H. reflexivity.
  - destruct (compatible (e0 :: effects)).
    + rewrite compile_assemble. discriminate.
    + intros H. inversion H. reflexivity.
Qed.

End Merge.

Section Schedule.

Context {Frag : Type}.
Implicit Types (p : Pass Frag) (ps : list (Pass Frag)) (fr : Frame Frag).

Lemma other_neq (s : Side) : other s <> s.
Proof. destruct s; discriminate. Qed.

Lemma outputOf_aliasFree p (isLast : bool) (cur : Side) :
  needsSwap p = true -> outputOf p isLast cur <> Buffer cur.
Proof.
  intros Hs. unfold outputOf. rewrite Hs.
  destruct isLast; [discriminate|].
  intros H. inversion H as [H']. exact (other_neq cur H').
Qed.

Lemma runPass_err p (img : Image Frag) (e : Error) :
  runPass p img = Err e -> e = ConfigurationError.
Proof.
  unfold runPass. destruct (kind p) as [effects|operation]; [|discriminate].
  destruct (merge effects) as [s|e'] eqn:Hm; simpl; [discriminate|].
  intros H. inversion H; subst. exact (merge_err _ _ Hm).
Qed.

Lemma runPasses_err ps fr (e : Error) :
  runPasses ps fr = Err e -> e = ConfigurationError.
Proof.
  revert fr. induction ps as [|p ps IH]; intros fr; simpl; [discriminate|].
  destruct (enabled p); [|apply IH].
  destruct (runPass p (read fr (current fr))) as [img|e'] eqn:Hp; simpl.
  - apply IH.
  - intros H. inversion H; subst. exact (runPass_err _ _ _ Hp).
Qed.

(** A frame whose pass list holds an effect pass with no effects ends in a
    configuration error, wherever that pass stands in the list. *)
Lemma runPasses_empty_effect_pass ps fr (name : string) :
  In (EffectPass name []) ps -> runPasses ps fr = Err ConfigurationError.
Proof.
  revert fr. induction ps as [|p ps IH]; intros fr Hin; [destruct Hin|].
  simpl. destruct Hin as [->|Hin]; [reflexivity|].
  destruct (enabled p); [|apply IH, Hin].
  destruct (runPass p (read fr (current fr))) as [img|e] eqn:Hp; simpl.
  - apply IH, Hin.
  - rewrite (runPass_err _ _ _ Hp). reflexivity.
Qed.

Lemma runPass_valid p (img : Image Frag) :
  enabled p = true -> validPass p = true -> exists img', runPass p img = Ok img'.
Proof.
  unfold validPass, runPass. intros He.
  destruct (kind p) as [effects|operation]; [|intros _; eexists; reflexivity].
  rewrite He. simpl. intros Hv.
  apply andb_true_iff in Hv as [Hne Hc].
  apply negb_true_iff, bool_decide_eq_false in Hne.
  rewrite (merge_ok _ Hne Hc). simpl. eexists; reflexivity.
Qed.

(** A frame over valid passes runs to its end. *)
Lemma runPasses_valid ps fr :
  forallb validPass ps = true -> exists fr', runPasses ps fr = Ok fr'.
Proof.
  revert fr. induction ps as [|p ps IH]; intros fr Hv; simpl in *.
  - eexists; reflexivity.
  - apply andb_true_iff in Hv as [Hp Hps].
    destruct (enabled p) eqn:He; [|apply IH, Hps].
    destruct (runPass_valid p (read fr (current fr)) He Hp) as [img Himg].
    rewrite Himg. simpl. apply IH, Hps.
Qed.

(** What a finished frame has appended to the trace. *)
Lemma runPasses_trace ps fr fr' :
  runPasses ps fr = Ok fr' ->
  exists tr, trace fr' = trace fr ++ tr
    /\ follows (current fr) tr
    /\ current fr' = finalSide (current fr) tr
    /\ Forall aliasFree tr
    /\ (Forall (fun p => enabled p = true -> needsSwap p = true) ps ->
        Forall (fun inv => swapping inv = true) tr).
Proof.
  revert fr. induction ps as [|p ps IH]; intros fr Hrun; simpl in Hrun.
  - inversion Hrun; subst. exists []. rewrite app_nil_r.
    repeat split; constructor.
  - destruct (enabled p) eqn:He.
    + destruct (runPass p (read fr (current fr))) as [img|e]; simpl in Hrun;
        [|discriminate].
      destruct (IH _ Hrun) as (tr & Htr & Hfol & Hcur & Hfree & Hswap).
      simpl in Htr, Hfol, Hcur.
      eexists (_ :: tr). split; [rewrite Htr, <- app_assoc; reflexivity|].
      split; [split; [reflexivity|exact Hfol]|].
      split; [exact Hcur|].
      split.
      * constructor; [|exact Hfree].
        unfold aliasFree; simpl. apply outputOf_aliasFree.
      * intros Hall. inversion Hall as [|? ? Hp Hps]; subst.
        constructor; [simpl; apply Hp, He | apply Hswap, Hps].
    + destruct (IH _ Hrun) as (tr & Htr & Hfol & Hcur & Hfree & Hswap).
      exists tr. repeat split; try assumption.
      intros Hall. inversion Hall; subst. apply Hswap. assumption.
Qed.

End Schedule.

(** After a trace of swapping invocations the current side is not the one
    the last invocation read. *)
Lemma swapped_away (tr : list Invocation) :
  forall (cur : Side) (inv : Invocation),
    follows cur tr -> Forall (fun i => swapping i = true) tr ->
    last tr = Some inv -> input inv <> Buffer (finalSide cur tr).
Proof.
  induction tr as [|i tr IH]; intros cur inv Hfol Hall Hlast; [discriminate|].
  destruct Hfol as [Hin Hfol]. inversion Hall as [|? ? Hi Htl]; subst.
  destruct tr as [|j tr].
  - simpl in Hlast. inversion Hlast; subst.
    unfold finalSide, sideAfter; simpl. rewrite Hi, Hin.
    intros H. inversion H as [H']. symmetry in H'. exact (other_neq cur H').
  - rewrite last_cons_cons in Hlast.
    exact (IH _ _ Hfol Htl Hlast).
Qed.

(** Equality of two colours whose channels are closed rationals. *)
Ltac color_eq :=
  vm_compute;
  repeat match goal with
         | |- (_, _) = (_, _) => f_equal
         end;
  apply Qc_is_canon; reflexivity.

Lemma scenarioB_composition (Frag : Type) (frag : Frag) :
  composition [halve; lift] frag white = gray (Q2Qc (6 # 10)).
Proof. color_eq. Qed.

Lemma scenarioB_reversed (Frag : Type) (frag : Frag) :
  composition [lift; halve] frag white = gray (Q2Qc (55 # 100)).
Proof. color_eq. Qed.

Lemma clamp_gray_in_range :
  clamp (gray (Q2Qc (6 # 10))) = gray (Q2Qc (6 # 10)).
Proof. color_eq. Qed.

(** C1.  The program synthesized for an ordered effect list, run on any
    fragment and input colour, yields the composition of the stages in list
    order, the last effect outermost, where a stage is an effect's transform
    followed by its own blend.  For a non-empty compatible list the merge
    succeeds and the merged shader is that composition.  Merging the effect
    that multiplies by one half with the effect that adds one tenth, in that
    order, maps white to (0.6, 0.6, 0.6), also after the clamping of the
    draw; in the other order the result is (0.55, 0.55, 0.55). *)
Theorem merged_shader_is_composition :
  (forall (Frag : Type) (effects : list (Effect Frag)) (frag : Frag) (c : Color),
     runProgram (assemble effects) frag c = Some (composition effects frag c))
  /\ (forall (Frag : Type) (effects : list (Effect Frag)),
     effects <> [] -> compatible effects = true ->
     exists shader, merge effects = Ok shader
       /\ forall (frag : Frag) (c : Color), shader frag c = composition effects frag c)
  /\ (forall (Frag : Type) (frag : Frag),
     exists shader, merge [halve; lift] = Ok shader
       /\ shader frag white = gray (Q2Qc (6 # 10))
       /\ draw shader (fun _ => white) frag = gray (Q2Qc (6 # 10)))
  /\ (forall (Frag : Type) (frag : Frag),
     exists shader, merge [lift; halve] = Ok shader
       /\ shader frag white = gray (Q2Qc (55 # 100))).
Proof.
  split; [|split; [|split]].
  - intros Frag effects frag c. apply runProgram_assemble.
  - intros Frag effects Hne Hc. eexists. split; [apply merge_ok; assumption|].
    intros frag c. simpl. rewrite runProgram_assemble. reflexivity.
  - intros Frag frag. eexists. split; [apply merge_ok; [discriminate|reflexivity]|].
    unfold draw. cbv beta. rewrite runProgram_assemble. cbn [default].
    rewrite scenarioB_composition. split; [reflexivity|apply clamp_gray_in_range].
  - intros Frag frag. eexists. split; [apply merge_ok; [discriminate|reflexivity]|].
    cbv beta. rewrite runProgram_assemble. cbn [default].
    apply scenarioB_reversed.
Qed.

(** [merged_shader_is_composition] on the two effects of scenario B. *)
Lemma merged_shader_is_composition_scenarioB :
  exists shader, merge (Frag := unit) [halve; lift] = Ok shader
    /\ forall (frag : unit) (c : Color), shader frag c = composition [halve; lift] frag c.
Proof.
  apply (proj1 (proj2 merged_shader_is_composition) unit [halve; lift]).
  - discriminate.
  - reflexivity.
Defined.

Section Composer.

Context {Frag : Type}.
Implicit Types (p : Pass Frag) (c : EffectComposer Frag).

Lemma render_trace c (tr : list Invocation) (c' : EffectComposer Frag) :
  render c = (Ok tr, c') ->
  follows (inputSide c) tr
  /\ inputSide c' = finalSide (inputSide c) tr
  /\ Forall aliasFree tr
  /\ (Forall (fun p => enabled p = true -> needsSwap p = true) (passes c) ->
      Forall (fun inv => swapping inv = true) tr).
Proof.
  unfold render. destruct (targets c) as [t|]; [|discriminate].
  destruct (runPasses (passes c) _) as [fr|e] eqn:Hrun; [|discriminate].
  intros H. inversion H; subst; clear H.
  destruct (runPasses_trace _ _ _ Hrun) as (tr & Htr & Hfol & Hcur & Hfree & Hswap).
  simpl in Htr, Hfol, Hcur. rewrite Htr. simpl.
  repeat split; assumption.
Qed.

Lemma render_valid c (ps : list (Pass Frag)) :
  targets c <> None -> forallb validPass ps = true ->
  exists (tr : list Invocation) (c' : EffectComposer Frag),
    render (setPasses ps c) = (Ok tr, c').
Proof.
  intros Ht Hv. unfold render, setPasses. simpl.
  destruct (targets c) as [t|]; [|contradiction].
  destruct (runPasses_valid ps
              (mkFrame (texels (ping t)) (texels (pong t)) (screen c) (inputSide c) [])
              Hv) as [fr Hfr].
  rewrite Hfr. eexists _, _. reflexivity.
Qed.

Lemma render_empty_effect_pass c (name : string) :
  In (EffectPass name []) (passes c) -> render c = (Err ConfigurationError, c).
Proof.
  intros Hin. unfold render. destruct (targets c) as [t|]; [|reflexivity].
  rewrite (runPasses_empty_effect_pass _ _ name Hin). reflexivity.
Qed.

Lemma releaseEffect_resources (effects : list (Effect Frag)) :
  concat (map resources (map releaseEffect effects)) = [].
Proof. induction effects as [|e effects IH]; simpl; [reflexivity|exact IH]. Qed.

Lemma releaseEffect_twice (effects : list (Effect Frag)) :
  map releaseEffect (map releaseEffect effects) = map releaseEffect effects.
Proof.
  induction effects as [|e effects IH]; simpl; [reflexivity|].
  rewrite IH. reflexivity.
Qed.

Lemma Pass_dispose_twice p :
  Pass_dispose (snd (Pass_dispose p)) = (Ok [], snd (Pass_dispose p)).
Proof.
  unfold Pass_dispose. destruct (kind p) as [effects|operation] eqn:Hk; simpl.
  - rewrite releaseEffect_resources, releaseEffect_twice. reflexivity.
  - rewrite Hk. reflexivity.
Qed.

Lemma Pass_dispose_all_twice (ps : list (Pass Frag)) :
  map (fun p => snd (Pass_dispose p)) (map (fun p => snd (Pass_dispose p)) ps) =
  map (fun p => snd (Pass_dispose p)) ps.
Proof.
  induction ps as [|p ps IH]; simpl; [reflexivity|].
  rewrite IH, Pass_dispose_twice. reflexivity.
Qed.

End Composer.

(** C4.  Merging an empty effect list is a [ConfigurationError], and so is
    executing an effect pass built with no effects.  A composer whose pass
    list holds such a pass answers [render()] with a [ConfigurationError]
    and is left exactly as it was; once its pass list is replaced by valid
    passes, and provided its buffers are there, the next [render()]
    succeeds. *)
Theorem empty_effect_pass_is_configuration_error :
  (forall (Frag : Type), merge (@nil (Effect Frag)) = Err ConfigurationError)
  /\ (forall (Frag : Type) (name : string) (img : Image Frag),
     runPass (EffectPass name []) img = Err ConfigurationError)
  /\ (forall (Frag : Type) (c : EffectComposer Frag) (name : string),
     In (EffectPass name []) (passes c) ->
     render c = (Err ConfigurationError, c))
  /\ (forall (Frag : Type) (c : EffectComposer Frag) (name : string)
            (ps : list (Pass Frag)),
     In (EffectPass name []) (passes c) ->
     targets c <> None ->
     forallb validPass ps = true ->
     exists (tr : list Invocation) (c' : EffectComposer Frag),
       render (setPasses ps (snd (render c))) = (Ok tr, c')).
Proof.
  split; [reflexivity|]. split; [reflexivity|]. split.
  - intros Frag c name. apply render_empty_effect_pass.
  - intros Frag c name ps Hin Ht Hv.
    rewrite (render_empty_effect_pass c name Hin). simpl.
    apply render_valid; assumption.
Qed.

(** [empty_effect_pass_is_configuration_error] on [brokenComposer], repaired
    with the passes of [chain]. *)
Lemma empty_effect_pass_then_chain :
  render brokenComposer = (Err ConfigurationError, brokenComposer)
  /\ exists (tr : list Invocation) (c' : EffectComposer unit),
       render (setPasses chain (snd (render brokenComposer))) = (Ok tr, c').
Proof.
  split.
  - apply (proj1 (proj2 (proj2 empty_effect_pass_is_configuration_error))
             unit brokenComposer "empty").
    simpl. right. left. reflexivity.
  - apply (proj2 (proj2 (proj2 empty_effect_pass_is_configuration_error))
             unit brokenComposer "empty" chain).
    + simpl. right. left. reflexivity.
    + discriminate.
    + reflexivity.
Defined.

(** C5.  In every frame that [render()] completes, each invocation reads
    the one buffer that is designated current input when it runs, starting
    from the composer's designation and flipping after every pass that
    needs a swap, and the composer ends on the designation so reached.  No
    invocation of a pass that needs a swap writes the buffer it reads.  When
    every enabled pass needs a swap, no invocation at all writes the buffer
    it reads, and the buffer designated current after the frame is not the
    one the last invocation read. *)
Theorem ping_pong_buffers_never_alias
    (Frag : Type) (c : EffectComposer Frag)
    (tr : list Invocation) (c' : EffectComposer Frag) :
  render c = (Ok tr, c') ->
  follows (inputSide c) tr
  /\ inputSide c' = finalSide (inputSide c) tr
  /\ Forall aliasFree tr
  /\ (Forall (fun p => enabled p = true -> needsSwap p = true) (passes c) ->
      Forall (fun inv => output inv <> input inv) tr
      /\ forall inv, last tr = Some inv -> input inv <> Buffer (inputSide c')).
Proof.
  intros Hr.
  destruct (render_trace c tr c' Hr) as (Hfol & Hcur & Hfree & Hswap).
  split; [exact Hfol|]. split; [exact Hcur|]. split; [exact Hfree|].
  intros Hall. specialize (Hswap Hall). split.
  - rewrite Forall_forall in Hfree, Hswap. apply Forall_forall.
    intros inv Hin. exact (Hfree inv Hin (Hswap inv Hin)).
  - intros inv Hlast. rewrite Hcur.
    exact (swapped_away tr _ inv Hfol Hswap Hlast).
Qed.

(** [ping_pong_buffers_never_alias] on one frame of [chainComposer]. *)
Lemma ping_pong_chain :
  render chainComposer = (Ok chainTrace, snd (render chainComposer))
  /\ follows Ping chainTrace
  /\ Forall aliasFree chainTrace.
Proof.
  assert (Hr : render chainComposer = (Ok chainTrace, snd (render chainComposer)))
    by reflexivity.
  split; [exact Hr|].
  pose proof (ping_pong_buffers_never_alias unit chainComposer chainTrace _ Hr)
    as (Hfol & _ & Hfree & _).
  split; [exact Hfol | exact Hfree].
Defined.

(** C7.  The release hook of a pass and [dispose()] on the composer report
    no error.  Called a second time, the hook of a pass releases nothing
    and [dispose()] hands no buffer back; both leave the state exactly as
    the first call left it. *)
Theorem dispose_twice_is_noop :
  (forall (Frag : Type) (p : Pass Frag),
     (exists released, fst (Pass_dispose p) = Ok released)
     /\ Pass_dispose (snd (Pass_dispose p)) = (Ok [], snd (Pass_dispose p)))
  /\ (forall (Frag : Type) (c : EffectComposer Frag),
     fst (dispose c) = Ok tt
     /\ dispose (snd (dispose c)) = (Ok tt, snd (dispose c))).
Proof.
  split.
  - intros Frag p. split; [|apply Pass_dispose_twice].
    unfold Pass_dispose. destruct (kind p); eexists; reflexivity.
  - intros Frag c. split; [reflexivity|].
    unfold dispose. simpl. rewrite Pass_dispose_all_twice. reflexivity.
Qed.

End PipelineFacts.
